(** * Product API (Express server): shallow embedding and verified properties

    The embedding follows [product-api/server.js]: the in-memory [products]
    array, the two validation middlewares, the authentication middleware, the
    seven route handlers of [apiRouter] in their order of registration, and the
    application-level error handler.  Express's dispatch (walk the stack of
    layers, run every layer that matches until one answers, continue on
    [next()], jump to the error handler on [next(err)] or on a throw) is
    written out as a small interpreter over the stack.

    Scope of the model.  A request is taken after [bodyParser.json()] and the
    logger have run: [body] is the parsed JSON object (a body the parser
    refuses never reaches the router), and the console output is left out.
    Query parameters are strings, the methods are the four the router
    registers, and of the error response only the status and the message are
    kept.  The collection is threaded through the handlers as a list: a
    handler that answers returns the list as it leaves it. *)

From Stdlib Require Import ZArith QArith_base Ascii String List Bool Lia.
From Stdlib Require Import Init.Byte.
From stdpp Require Import base option list gmap strings.

Open Scope string_scope.
Open Scope Z_scope.

(** ** JavaScript strings

    A string is a sequence of code units; the embedding takes the code units
    below 256 (Latin-1), which [Ascii.ascii] enumerates. *)

Module JsString.

Definition code (c : ascii) : N := N_of_ascii c.

(** [String.prototype.toLowerCase] on one code unit below 256: A-Z and the
    accented capitals U+00C0..U+00DE (U+00D7, the multiplication sign,
    excepted) move up by 32. *)
Definition lower_unit (c : ascii) : ascii :=
  let n := code c in
  if ((65 <=? n) && (n <=? 90))%N
     || ((192 <=? n) && (n <=? 222) && negb (n =? 215))%N
  then ascii_of_N (n + 32) else c.

Fixpoint toLowerCase (s : string) : string :=
  match s with
  | EmptyString => EmptyString
  | String c s' => String (lower_unit c) (toLowerCase s')
  end.

(** [s.includes(t)]: [t] occurs in [s] at some position. *)
Fixpoint includes (s t : string) : bool :=
  String.prefix t s
  || match s with
     | EmptyString => false
     | String _ s' => includes s' t
     end.

(** White space skipped by [parseInt] (StrWhiteSpaceChar below 256). *)
Definition is_white (c : ascii) : bool :=
  let n := code c in
  ((9 <=? n) && (n <=? 13) || (n =? 32) || (n =? 160))%N.

Fixpoint trim_start (s : string) : string :=
  match s with
  | EmptyString => EmptyString
  | String c s' => if is_white c then trim_start s' else s
  end.

(** Value of a code unit as a digit in radix up to 36. *)
Definition digit_value (c : ascii) : option Z :=
  let n := code c in
  if ((48 <=? n) && (n <=? 57))%N then Some (Z.of_N n - 48)
  else if ((97 <=? n) && (n <=? 122))%N then Some (Z.of_N n - 87)
  else if ((65 <=? n) && (n <=? 90))%N then Some (Z.of_N n - 55)
  else None.

(** The longest prefix of radix-[r] digits, read as a number; [acc] is
    [None] until the first digit is seen. *)
Fixpoint digits (r : Z) (s : string) (acc : option Z) : option Z :=
  match s with
  | EmptyString => acc
  | String c s' =>
      match digit_value c with
      | Some d =>
          if d <? r then digits r s' (Some (default 0 acc * r + d)) else acc
      | None => acc
      end
  end.

(** The integer that [parseInt(x)] reads, with no radix argument, for [x] a
    string or [undefined]: an optional sign, an optional [0x], then the
    longest run of digits.  [None] when there is no digit.  This is the
    mathematical value; [JsNumber.parseInt] below makes a number of it. *)
Definition parse_integer (x : option string) : option Z :=
  match x with
  | None => None
  | Some s =>
      let s := trim_start s in
      let '(sign, s) :=
        match s with
        | String "-" s' => (-1, s')
        | String "+" s' => (1, s')
        | _ => (1, s)
        end in
      let '(r, s) :=
        match s with
        | String "0" (String "x" s') => (16, s')
        | String "0" (String "X" s') => (16, s')
        | _ => (10, s)
        end in
      match digits r s None with
      | Some n => Some (sign * n)
      | None => None
      end
  end.

End JsString.

(** ** JavaScript numbers whose value is an integer

    [parseInt] and the arithmetic on what it returns yield doubles: an
    integer that a double holds, an infinity or NaN.  Minus zero is not told
    from zero: the code does not divide, zero is falsy under either sign and
    JSON prints both as 0. *)
Module JsNumber.

Inductive t : Set :=
| Fin (z : Z)
| PInf
| NInf
| NaN.

#[global] Instance t_eq_dec : EqDecision t.
Proof. solve_decision. Defined.

(** The double nearest to the integer [z], ties to the even significand.
    An integer below 2^53 in size is a double; beyond, a double keeps the 53
    leading bits; what rounds to 2^1024 or more is an infinity. *)
Definition round (z : Z) : t :=
  let a := Z.abs z in
  if a <? 2 ^ 53 then Fin z
  else
    let ulp := 2 ^ (Z.log2 a - 52) in
    let q := a / ulp in
    let r := a mod ulp in
    let q := if (ulp <? 2 * r) || ((2 * r =? ulp) && Z.odd q) then q + 1 else q in
    let m := q * ulp in
    if 2 ^ 1024 <=? m then (if z <? 0 then NInf else PInf)
    else Fin (Z.sgn z * m).

(** [a - b] *)
Definition sub (a b : t) : t :=
  match a, b with
  | NaN, _ | _, NaN => NaN
  | Fin x, Fin y => round (x - y)
  | PInf, PInf | NInf, NInf => NaN
  | PInf, _ | _, NInf => PInf
  | NInf, _ | _, PInf => NInf
  end.

(** [a * b] *)
Definition mul (a b : t) : t :=
  match a, b with
  | NaN, _ | _, NaN => NaN
  | Fin x, Fin y => round (x * y)
  | Fin x, PInf | PInf, Fin x =>
      if x =? 0 then NaN else if x <? 0 then NInf else PInf
  | Fin x, NInf | NInf, Fin x =>
      if x =? 0 then NaN else if x <? 0 then PInf else NInf
  | PInf, PInf | NInf, NInf => PInf
  | PInf, NInf | NInf, PInf => NInf
  end.

(** ToBoolean: zero and NaN are falsy. *)
Definition truthy (n : t) : bool :=
  match n with
  | Fin z => negb (z =? 0)
  | NaN => false
  | PInf | NInf => true
  end.

(** [parseInt(x)] with no radix argument, for [x] a string or [undefined]:
    the number nearest to the integer read, NaN when there is none.  (The
    standard lets an implementation drop the decimal digits after the 20th;
    V8 rounds the integer as written.) *)
Definition parseInt (x : option string) : t :=
  match JsString.parse_integer x with
  | Some n => round n
  | None => NaN
  end.

(** [parseInt(x) || d] *)
Definition parseInt_or (x : option string) (d : Z) : t :=
  let n := parseInt x in
  if truthy n then n else Fin d.

(** ToIntegerOrInfinity of an index of an array of length [len], the
    infinities clamped as [slice] clamps any index beyond the ends. *)
Definition index (len : Z) (n : t) : Z :=
  match n with
  | Fin z => z
  | PInf => len
  | NInf => - len
  | NaN => 0
  end.

End JsNumber.

(** ** JavaScript values as they reach the handlers

    [req.body] is what [bodyParser.json()] produced: the properties of a JSON
    object.  A property that is missing reads as [VUndefined].  A number is
    modelled by its value, a rational; the handlers only copy numbers and test
    them for truthiness. *)

#[warnings="-register-all"]
Inductive Value :=
| VUndefined
| VNull
| VBool (b : bool)
| VNum (q : Q)
| VStr (s : string)
| VArr (items : list Value)
| VObj (props : list (string * Value)).

Inductive JsType := TUndefined | TObject | TBoolean | TNumber | TString.

Definition typeof (v : Value) : JsType :=
  match v with
  | VUndefined => TUndefined
  | VNull | VArr _ | VObj _ => TObject
  | VBool _ => TBoolean
  | VNum _ => TNumber
  | VStr _ => TString
  end.

Definition JsType_eqb (a b : JsType) : bool :=
  match a, b with
  | TUndefined, TUndefined | TObject, TObject | TBoolean, TBoolean
  | TNumber, TNumber | TString, TString => true
  | _, _ => false
  end.

(** ToBoolean. *)
Definition truthy (v : Value) : bool :=
  match v with
  | VUndefined | VNull => false
  | VBool b => b
  | VNum q => negb (Qnum q =? 0)
  | VStr s => negb (String.eqb s "")
  | VArr _ | VObj _ => true
  end.

Definition is_undefined (v : Value) : bool :=
  match v with VUndefined => true | _ => false end.

(** [a || b]. *)
Definition js_or (a b : Value) : Value := if truthy a then a else b.

(** [v === s] for a string [s]. *)
Definition strict_eq_str (v : Value) (s : string) : bool :=
  match v with VStr t => String.eqb t s | _ => false end.

(** Property read on the parsed body. *)
Definition prop (o : gmap string Value) (k : string) : Value :=
  default VUndefined (o !! k).

(** ** The [uuid] package's [v4()]

    Sixteen random bytes with the version and variant bits forced, printed as
    8-4-4-4-12 lower-case hexadecimal digits.  The random bytes are an input of
    the model. *)

Module Uuid.

Definition Rnds := list byte.

Definition rnd (r : Rnds) (i : nat) : N := Byte.to_N (nth i r x00).

Definition hex_digit (n : N) : ascii :=
  if (n <? 10)%N then ascii_of_N (48 + n) else ascii_of_N (87 + n).

(** [byteToHex[b]], that is [(b + 0x100).toString(16).slice(1)]. *)
Definition byteToHex (b : N) : string :=
  String (hex_digit ((b / 16) mod 16)%N) (String (hex_digit (b mod 16)%N) "").

Definition unsafeStringify (arr : nat -> N) : string :=
  let h i := byteToHex (arr i) in
  String.concat ""
    [ h 0%nat; h 1%nat; h 2%nat; h 3%nat; "-"; h 4%nat; h 5%nat; "-";
      h 6%nat; h 7%nat; "-"; h 8%nat; h 9%nat; "-";
      h 10%nat; h 11%nat; h 12%nat; h 13%nat; h 14%nat; h 15%nat ].

(** [rnds[6] = (rnds[6] & 0x0f) | 0x40; rnds[8] = (rnds[8] & 0x3f) | 0x80]. *)
Definition v4 (r : Rnds) : string :=
  unsafeStringify (fun i =>
    match i with
    | 6%nat => N.lor (N.land (rnd r 6) 15) 64
    | 8%nat => N.lor (N.land (rnd r 8) 63) 128
    | _ => rnd r i
    end).

End Uuid.

Definition uuidv4 := Uuid.v4.

(** ** Products and the seed collection *)

Module Product.
Record t := mk {
  id : string;
  name : Value;
  description : Value;
  price : Value;
  category : Value;
  inStock : Value
}.
End Product.

Definition num (z : Z) : Value := VNum (inject_Z z).

Definition products_seed : list Product.t :=
  [ Product.mk "1" (VStr "Laptop")
      (VStr "High-performance laptop with 16GB RAM")
      (num 1200) (VStr "electronics") (VBool true);
    Product.mk "2" (VStr "Smartphone")
      (VStr "Latest model with 128GB storage")
      (num 800) (VStr "electronics") (VBool true);
    Product.mk "3" (VStr "Coffee Maker")
      (VStr "Programmable coffee maker with timer")
      (num 50) (VStr "kitchen") (VBool false) ].

(** ** Requests, responses and errors *)

(** The methods the routes are registered for.  A request arrives with a
    [Verb], defined with the whole [server] below. *)
Inductive Method := GET | POST | PUT | DELETE.

#[global] Instance Method_eq_dec : EqDecision Method.
Proof. solve_decision. Defined.

(** A request as the handlers of the routes find it: with one of the four
    methods, and with the object that [bodyParser.json()] left in [req.body].
    [path] holds the segments of the URL path in canonical form, none empty
    and the optional final slash dropped ([/api/products/1] and
    [/api/products/1/] are ["api"; "products"; "1"]); [api_key] is
    [req.headers['x-api-key']]; [query] is [req.query] with string values;
    [body] maps the own properties of [req.body].  Requests in any other form
    (another verb, a doubled slash, a body that the parser refused or did not
    read) are those of [Incoming], answered by [server]. *)
Record Request := {
  method : Method;
  path : list string;
  api_key : option string;
  query : gmap string string;
  body : gmap string Value
}.

(** [process.env]. *)
Record Env := { API_KEY : option string }.

Inductive Error :=
| NotFoundError (message : string)
| ValidationError (message : string)
| UnauthorizedError (message : string)
| TypeError (message : string).

(** [err.status]: the three custom classes set it, a built-in error has none. *)
Definition err_status (e : Error) : option Z :=
  match e with
  | NotFoundError _ => Some 404
  | ValidationError _ => Some 400
  | UnauthorizedError _ => Some 401
  | TypeError _ => None
  end.

Definition err_message (e : Error) : string :=
  match e with
  | NotFoundError m | ValidationError m | UnauthorizedError m | TypeError m => m
  end.

(** What a response carries.  [BOpaque] is a JSON object the embedding does not
    describe (see [count_category]); [BFinal] is the page Express sends when
    no layer took the request; [BAllow] is the list of methods a router
    sends, also as the Allow header, in answer to OPTIONS.  In [BPage] the
    page and the limit are the numbers the handler holds: JSON prints an
    infinite one as [null]. *)
Inductive Body :=
| BEmpty
| BText (s : string)
| BProduct (p : Product.t)
| BProducts (ps : list Product.t)
| BPage (page limit : JsNumber.t) (total : Z) (products : list Product.t)
| BStats (counts : gmap string Z)
| BOpaque
| BError (message : string)
| BAllow (methods : list string)
| BFinal.

Record Response := { status : Z; payload : Body }.

(** What a handler does: answer (with the collection as it leaves it), call
    [next()], or call [next(err)] / throw. *)
Inductive Outcome :=
| Respond (r : Response) (ps : list Product.t)
| Next
| Fail (e : Error).

Record Ctx := {
  env : Env;
  rnds : Uuid.Rnds;
  req : Request;
  params : gmap string string
}.

Definition Handler := Ctx -> list Product.t -> Outcome.

(** ** Array helpers *)

(** [arr.slice(start, end)] once both indices are integers: a negative index
    counts from the end, and both ends are clamped to the array. *)
Definition slice_int {A} (arr : list A) (start end_ : Z) : list A :=
  let len := Z.of_nat (length arr) in
  let k := if start <? 0 then Z.max (len + start) 0 else Z.min start len in
  let final := if end_ <? 0 then Z.max (len + end_) 0 else Z.min end_ len in
  take (Z.to_nat (final - k)) (drop (Z.to_nat k) arr).

(** [arr.slice(start, end)] on the numbers the code computes. *)
Definition slice {A} (arr : list A) (start end_ : JsNumber.t) : list A :=
  let len := Z.of_nat (length arr) in
  slice_int arr (JsNumber.index len start) (JsNumber.index len end_).

(** The callback [p => p.id === req.params.id]. *)
Definition has_id (ctx : Ctx) (p : Product.t) : Prop :=
  Some (Product.id p) = params ctx !! "id".

#[global] Instance has_id_dec ctx p : Decision (has_id ctx p).
Proof. unfold has_id. apply _. Defined.

(** ** Middlewares *)

Definition authMiddleware : Handler := fun ctx _ =>
  match api_key (req ctx) with
  | Some apiKey =>
      if truthy (VStr apiKey) && bool_decide (Some apiKey = API_KEY (env ctx))
      then Next
      else Fail (UnauthorizedError "Unauthorized")
  | None => Fail (UnauthorizedError "Unauthorized")
  end.

Definition is_type (v : Value) (t : JsType) : bool := JsType_eqb (typeof v) t.

Definition validateProductCreation : Handler := fun ctx _ =>
  let b := body (req ctx) in
  let name := prop b "name" in
  let description := prop b "description" in
  let price := prop b "price" in
  let category := prop b "category" in
  let inStock := prop b "inStock" in
  if negb (truthy name) || negb (truthy description) || negb (truthy price)
     || negb (truthy category) || is_undefined inStock
  then Fail (ValidationError "All fields are required")
  else if negb (is_type name TString) || negb (is_type description TString)
          || negb (is_type price TNumber) || negb (is_type category TString)
          || negb (is_type inStock TBoolean)
  then Fail (ValidationError "Invalid data types")
  else Next.

Definition validateProductUpdate : Handler := fun ctx _ =>
  let b := body (req ctx) in
  let name := prop b "name" in
  let description := prop b "description" in
  let price := prop b "price" in
  let category := prop b "category" in
  let inStock := prop b "inStock" in
  if truthy name && negb (is_type name TString)
  then Fail (ValidationError "Name must be a string")
  else if truthy description && negb (is_type description TString)
  then Fail (ValidationError "Description must be a string")
  else if truthy price && negb (is_type price TNumber)
  then Fail (ValidationError "Price must be a number")
  else if truthy category && negb (is_type category TString)
  then Fail (ValidationError "Category must be a string")
  else if negb (is_undefined inStock) && negb (is_type inStock TBoolean)
  then Fail (ValidationError "inStock must be a boolean")
  else Next.

(** ** Route handlers *)

(** GET /products *)
Definition listProducts : Handler := fun ctx products =>
  let q := query (req ctx) in
  let filteredProducts :=
    match q !! "category" with
    | Some c =>
        if truthy (VStr c)
        then filter (fun p => strict_eq_str (Product.category p) c = true) products
        else products
    | None => products
    end in
  let page := JsNumber.parseInt_or (q !! "page") 1 in
  let limit := JsNumber.parseInt_or (q !! "limit") 10 in
  let startIndex := JsNumber.mul (JsNumber.sub page (JsNumber.Fin 1)) limit in
  let endIndex := JsNumber.mul page limit in
  let paginatedProducts := slice filteredProducts startIndex endIndex in
  Respond
    {| status := 200;
       payload := BPage page limit (Z.of_nat (length filteredProducts))
                    paginatedProducts |}
    products.

(** GET /products/:id *)
Definition getProduct : Handler := fun ctx products =>
  match list_find (has_id ctx) products with
  | Some (_, product) =>
      Respond {| status := 200; payload := BProduct product |} products
  | None => Fail (NotFoundError "Product not found")
  end.

(** POST /products, after [validateProductCreation] *)
Definition createProduct : Handler := fun ctx products =>
  let b := body (req ctx) in
  let newProduct :=
    Product.mk (uuidv4 (rnds ctx)) (prop b "name") (prop b "description")
      (prop b "price") (prop b "category") (prop b "inStock") in
  Respond {| status := 201; payload := BProduct newProduct |}
    (products ++ [newProduct]).

(** The assignments of the PUT handler on the product it found. *)
Definition merge (b : gmap string Value) (product : Product.t) : Product.t :=
  Product.mk (Product.id product)
    (js_or (prop b "name") (Product.name product))
    (js_or (prop b "description") (Product.description product))
    (js_or (prop b "price") (Product.price product))
    (js_or (prop b "category") (Product.category product))
    (if negb (is_undefined (prop b "inStock")) then prop b "inStock"
     else Product.inStock product).

(** PUT /products/:id, after [validateProductUpdate]; the product object is
    updated in place, so the array keeps it at its index. *)
Definition updateProduct : Handler := fun ctx products =>
  match list_find (has_id ctx) products with
  | Some (i, product) =>
      let product' := merge (body (req ctx)) product in
      Respond {| status := 200; payload := BProduct product' |}
        (<[i := product']> products)
  | None => Fail (NotFoundError "Product not found")
  end.

(** DELETE /products/:id: [findIndex] then [splice(index, 1)]. *)
Definition deleteProduct : Handler := fun ctx products =>
  match list_find (has_id ctx) products with
  | Some (index, _) =>
      Respond {| status := 204; payload := BEmpty |} (delete index products)
  | None => Fail (NotFoundError "Product not found")
  end.

(** [p.name.toLowerCase()]: a name that is not a string has no such method and
    the call throws (the message is V8's). *)
Definition name_toLowerCase (p : Product.t) : Error + string :=
  match Product.name p with
  | VStr s => inr (JsString.toLowerCase s)
  | VUndefined =>
      inl (TypeError "Cannot read properties of undefined (reading 'toLowerCase')")
  | VNull =>
      inl (TypeError "Cannot read properties of null (reading 'toLowerCase')")
  | _ => inl (TypeError "p.name.toLowerCase is not a function")
  end.

(** [products.filter(p => p.name.toLowerCase().includes(searchTerm))]. *)
Fixpoint filter_by_name (searchTerm : string) (products : list Product.t)
  : Error + list Product.t :=
  match products with
  | [] => inr []
  | p :: rest =>
      match name_toLowerCase p with
      | inl e => inl e
      | inr n =>
          match filter_by_name searchTerm rest with
          | inl e => inl e
          | inr found =>
              inr (if JsString.includes n searchTerm then p :: found else found)
          end
      end
  end.

(** GET /products/search *)
Definition searchProducts : Handler := fun ctx products =>
  let searchTerm :=
    match query (req ctx) !! "q" with
    | Some q => if truthy (VStr q) then JsString.toLowerCase q else ""
    | None => ""
    end in
  match filter_by_name searchTerm products with
  | inr filteredProducts =>
      Respond {| status := 200; payload := BProducts filteredProducts |} products
  | inl e => Fail e
  end.

(** The accumulator of the stats handler is an object literal, so a read of a
    name that [Object.prototype] defines finds the inherited member and not
    [undefined]. *)
Definition object_prototype_keys : list string :=
  [ "constructor"; "hasOwnProperty"; "isPrototypeOf"; "propertyIsEnumerable";
    "toLocaleString"; "toString"; "valueOf"; "__proto__";
    "__defineGetter__"; "__defineSetter__"; "__lookupGetter__";
    "__lookupSetter__" ].

(** One step of the [reduce]: [acc[c] = (acc[c] || 0) + 1].  [None] stands for
    an accumulator this embedding does not describe: a category that is not a
    string, or one that names an inherited member. *)
Definition count_category (acc : option (gmap string Z)) (product : Product.t)
  : option (gmap string Z) :=
  match acc, Product.category product with
  | Some m, VStr c =>
      if bool_decide (c ∈ object_prototype_keys) then None
      else Some (<[c := default 0 (m !! c) + 1]> m)
  | _, _ => None
  end.

(** GET /products/stats *)
Definition statsProducts : Handler := fun ctx products =>
  match foldl count_category (Some ∅) products with
  | Some stats => Respond {| status := 200; payload := BStats stats |} products
  | None => Respond {| status := 200; payload := BOpaque |} products
  end.

(** ** Routing *)

Inductive Seg := Lit (s : string) | Par (name : string).

(** Route paths match whole canonical paths, segment by segment, ignoring
    case on the literal segments (Express's default); a parameter takes one
    segment, which is not empty in a canonical path. *)
Fixpoint match_path (pat : list Seg) (p : list string)
  : option (gmap string string) :=
  match pat, p with
  | [], [] => Some ∅
  | Lit s :: pat', x :: p' =>
      if String.eqb (JsString.toLowerCase x) (JsString.toLowerCase s)
      then match_path pat' p' else None
  | Par n :: pat', x :: p' => (fun m => <[n := x]> m) <$> match_path pat' p'
  | _, _ => None
  end.

Inductive LayerName :=
| L_auth | L_list | L_get | L_create | L_update | L_delete | L_search | L_stats.

#[global] Instance LayerName_eq_dec : EqDecision LayerName.
Proof. solve_decision. Defined.

(** A layer of the router's stack: [router.use(fn)] has neither method nor
    path; [router.METHOD(path, fn...)] has both and a chain of handlers. *)
Record Layer := {
  layer_name : LayerName;
  layer_method : option Method;
  layer_path : option (list Seg);
  layer_stack : list Handler
}.

Definition layer_match (l : Layer) (m : Method) (p : list string)
  : option (gmap string string) :=
  if match layer_method l with
     | Some m' => bool_decide (m = m')
     | None => true
     end
  then match layer_path l with
       | Some pat => match_path pat p
       | None => Some ∅
       end
  else None.

(** The layers of [apiRouter], in the order the source registers them. *)
Definition apiRouter : list Layer :=
  [ Build_Layer L_auth None None [authMiddleware];
    Build_Layer L_list (Some GET) (Some [Lit "products"]) [listProducts];
    Build_Layer L_get (Some GET) (Some [Lit "products"; Par "id"]) [getProduct];
    Build_Layer L_create (Some POST) (Some [Lit "products"])
      [validateProductCreation; createProduct];
    Build_Layer L_update (Some PUT) (Some [Lit "products"; Par "id"])
      [validateProductUpdate; updateProduct];
    Build_Layer L_delete (Some DELETE) (Some [Lit "products"; Par "id"])
      [deleteProduct];
    Build_Layer L_search (Some GET) (Some [Lit "products"; Lit "search"])
      [searchProducts];
    Build_Layer L_stats (Some GET) (Some [Lit "products"; Lit "stats"])
      [statsProducts] ].

(** The handlers of one layer run in turn while they call [next()]. *)
Fixpoint run_handlers (hs : list Handler) (ctx : Ctx) (ps : list Product.t)
  : Outcome :=
  match hs with
  | [] => Next
  | h :: hs' =>
      match h ctx ps with
      | Next => run_handlers hs' ctx ps
      | o => o
      end
  end.

(** Walk the stack: every matching layer runs until one answers or fails.  The
    first component lists the layers that ran. *)
Fixpoint route (stack : list Layer) (e : Env) (r : Uuid.Rnds) (rq : Request)
    (p : list string) (ps : list Product.t) : list LayerName * Outcome :=
  match stack with
  | [] => ([], Next)
  | l :: rest =>
      match layer_match l (method rq) p with
      | None => route rest e r rq p ps
      | Some prm =>
          match run_handlers (layer_stack l) (Build_Ctx e r rq prm) ps with
          | Next =>
              let '(ran, o) := route rest e r rq p ps in
              (layer_name l :: ran, o)
          | o => ([layer_name l], o)
          end
      end
  end.

(** The error-handling middleware: [err.status || 500] and [err.message]. *)
Definition errorHandler (e : Error) : Response :=
  {| status := default 500 (err_status e); payload := BError (err_message e) |}.

Definition welcome : string :=
  "Welcome to the Product API! Go to /api/products to see all products.".

(** Express's answer when no layer took the request. *)
Definition notRouted : Response := {| status := 404; payload := BFinal |}.

Record Result := {
  ran : list LayerName;
  response : Response;
  products : list Product.t
}.

(** How a request ends: the answer of a handler, the error handler's answer
    after [next(err)], or Express's 404 when the stack is exhausted.  Only an
    answering handler hands back a collection of its own. *)
Definition conclude (ran : list LayerName) (o : Outcome) (ps : list Product.t)
  : Result :=
  match o with
  | Respond res ps' => Build_Result ran res ps'
  | Fail err => Build_Result ran (errorHandler err) ps
  | Next => Build_Result ran notRouted ps
  end.

(** The application behind the body parser, for a [Request]:
    [app.use('/api', apiRouter)], then [app.get('/')], then the error handler.
    [ps] is the collection before the request, the result carries the
    collection after it.  [server] below puts [bodyParser.json()] in front and
    takes the requests that are no [Request]. *)
Definition app (e : Env) (r : Uuid.Rnds) (rq : Request) (ps : list Product.t)
  : Result :=
  match path rq with
  | [] =>
      if bool_decide (method rq = GET)
      then Build_Result [] {| status := 200; payload := BText welcome |} ps
      else Build_Result [] notRouted ps
  | mount :: p =>
      if String.eqb (JsString.toLowerCase mount) "api"
      then let '(ran, o) := route apiRouter e r rq p ps in conclude ran o ps
      else Build_Result [] notRouted ps
  end.

(** ** The whole server

    What reaches the server is wider than a [Request]: any verb, any path, and
    a body that [bodyParser.json()], the first layer of the application, may
    refuse or leave unread. *)

Inductive Verb :=
| Std (m : Method)
| HEAD
| OPTIONS
| OtherVerb (name : string).

(** What [bodyParser.json()] does with the body.  It calls [next(err)] with
    an error that carries its own status (400 for JSON that does not parse,
    413, 415, ...); or it reads nothing and leaves [req.body] as it found it,
    [undefined]; or it stores the parsed object.  (An array is stored too: it
    has none of the properties the handlers read, as the empty object.) *)
Inductive Parsed :=
| Refused (status : Z) (message : string)
| Undefined
| Object (b : gmap string Value).

(** [in_path] is the URL path cut at every slash, the empty segments kept:
    [/api/products/] is ["api"; "products"; ""], [/api//products] is
    ["api"; ""; "products"] and [/] is [""].  [in_fresh] is [req.fresh] for
    a 2xx answer to GET or HEAD: the request carries [If-None-Match] or
    [If-Modified-Since] and the answer about to be sent meets it. *)
Record Incoming := {
  in_verb : Verb;
  in_path : list string;
  in_key : option string;
  in_query : gmap string string;
  in_body : Parsed;
  in_fresh : bool
}.

(** Routing is not strict: a path may end with one more slash. *)
Fixpoint strip_slash (p : list string) : list string :=
  match p with
  | [] => []
  | x :: q =>
      match x, q with
      | "", [] => []
      | _, _ => x :: strip_slash q
      end
  end.

(** The canonical form of a path that has one: no route path matches across
    an empty segment. *)
Definition canonical (p : list string) : option (list string) :=
  let q := strip_slash p in
  if bool_decide ("" ∈ q) then None else Some q.

(** The properties of [req.body] that a handler reads. *)
Definition req_body (b : Parsed) : gmap string Value :=
  match b with
  | Object m => m
  | _ => ∅
  end.

Definition as_request (i : Incoming) (m : Method) (p : list string) : Request :=
  {| method := m; path := p; api_key := in_key i; query := in_query i;
     body := req_body (in_body i) |}.

(** Both validators begin with [const { name, ... } = req.body], which
    throws when [req.body] is [undefined]. *)
Definition destructuring (b : Parsed) (h : Handler) : Handler := fun ctx ps =>
  match b with
  | Undefined =>
      Fail (TypeError
              "Cannot destructure property 'name' of 'req.body' as it is undefined.")
  | _ => h ctx ps
  end.

(** The layers of [apiRouter] with [req.body] as the parser left it. *)
Definition apiRouter_on (b : Parsed) : list Layer :=
  [ Build_Layer L_auth None None [authMiddleware];
    Build_Layer L_list (Some GET) (Some [Lit "products"]) [listProducts];
    Build_Layer L_get (Some GET) (Some [Lit "products"; Par "id"]) [getProduct];
    Build_Layer L_create (Some POST) (Some [Lit "products"])
      [destructuring b validateProductCreation; createProduct];
    Build_Layer L_update (Some PUT) (Some [Lit "products"; Par "id"])
      [destructuring b validateProductUpdate; updateProduct];
    Build_Layer L_delete (Some DELETE) (Some [Lit "products"; Par "id"])
      [deleteProduct];
    Build_Layer L_search (Some GET) (Some [Lit "products"; Lit "search"])
      [searchProducts];
    Build_Layer L_stats (Some GET) (Some [Lit "products"; Lit "stats"])
      [statsProducts] ].

(** The method whose routes take the verb: a GET route serves HEAD. *)
Definition verb_method (v : Verb) : option Method :=
  match v with
  | Std m => Some m
  | HEAD => Some GET
  | OPTIONS | OtherVerb _ => None
  end.

(** The router's automatic answer to OPTIONS lists the methods of the routes
    whose path matches, in the order of the stack, each once
    ([route._options] and [appendMethods]). *)
Definition method_names (m : Method) : list string :=
  match m with
  | GET => ["GET"; "HEAD"]
  | POST => ["POST"]
  | PUT => ["PUT"]
  | DELETE => ["DELETE"]
  end.

Definition appendMethods (methods addition : list string) : list string :=
  foldl (fun acc m => if bool_decide (m ∈ acc) then acc else acc ++ [m])%list
    methods addition.

Definition options (stack : list Layer) (p : list string) : list string :=
  foldl
    (fun acc l =>
       match layer_method l, layer_path l with
       | Some m, Some pat =>
           match match_path pat p with
           | Some _ => appendMethods acc (method_names m)
           | None => acc
           end
       | _, _ => acc
       end)
    [] stack.

(** The layers added with [use]: they have no path and take every verb. *)
Definition pathless (stack : list Layer) : list Layer :=
  List.filter
    (fun l => match layer_path l with None => true | Some _ => false end)
    stack.

(** [apiRouter] on the path below its mount point.  A verb that some route
    can take, on a canonical path, walks the stack.  Otherwise only the
    layers without a path run, and if they all call [next()] the router
    answers OPTIONS itself when it has methods to list. *)
Definition api (e : Env) (r : Uuid.Rnds) (i : Incoming) (mount : string)
    (rest : list string) (ps : list Product.t) : Result :=
  let stack := apiRouter_on (in_body i) in
  match verb_method (in_verb i), canonical rest with
  | Some m, Some p =>
      let '(ran, o) := route stack e r (as_request i m (mount :: p)) p ps in
      conclude ran o ps
  | _, _ =>
      let '(ran, o) :=
        route (pathless stack) e r (as_request i GET (mount :: rest)) rest ps in
      match o, in_verb i, canonical rest with
      | Next, OPTIONS, Some p =>
          match options stack p with
          | [] => Build_Result ran notRouted ps
          | allow =>
              Build_Result ran {| status := 200; payload := BAllow allow |} ps
          end
      | _, _, _ => conclude ran o ps
      end
  end.

(** [app.get('/')] for any verb. *)
Definition root (i : Incoming) (ps : list Product.t) : Result :=
  match in_verb i with
  | Std GET | HEAD =>
      Build_Result [] {| status := 200; payload := BText welcome |} ps
  | OPTIONS =>
      Build_Result [] {| status := 200; payload := BAllow ["GET"; "HEAD"] |} ps
  | _ => Build_Result [] notRouted ps
  end.

(** [errorHandler] on an error of the parser: [err.status || 500]. *)
Definition parserError (st : Z) (message : string) : Response :=
  {| status := if st =? 0 then 500 else st; payload := BError message |}.

(** How Express sends an answer: 304 without a body in place of a 2xx answer
    to a GET or HEAD request that is fresh, and no body for HEAD. *)
Definition deliver (i : Incoming) (res : Response) : Response :=
  let get_or_head :=
    match in_verb i with
    | Std GET | HEAD => true
    | _ => false
    end in
  if get_or_head && (200 <=? status res) && (status res <? 300) && in_fresh i
  then {| status := 304; payload := BEmpty |}
  else
    match in_verb i with
    | HEAD => {| status := status res; payload := BEmpty |}
    | _ => res
    end.

(** The server: [bodyParser.json()], then the router mounted on [/api], then
    the root route; the error handler and Express's 404 end what they leave
    open. *)
Definition server (e : Env) (r : Uuid.Rnds) (i : Incoming)
    (ps : list Product.t) : Result :=
  let res :=
    match in_body i with
    | Refused st message => Build_Result [] (parserError st message) ps
    | _ =>
        match in_path i with
        | [] | [""] => root i ps
        | mount :: rest =>
            if String.eqb (JsString.toLowerCase mount) "api"
            then api e r i mount rest ps
            else Build_Result [] notRouted ps
        end
    end in
  {| ran := ran res; response := deliver i (response res);
     products := products res |}.

(** ** Runs of the server

    The server starts on the seed collection and answers one request after the
    other.  An event is a request together with the random bytes [uuidv4] would
    draw while it is handled.  [issued] is a ghost log of every id the
    collection has ever held. *)

Record Event := { ev_rnds : Uuid.Rnds; ev_req : Request }.

Record World := { store : list Product.t; issued : list string }.

Definition world_seed : World :=
  {| store := products_seed; issued := Product.id <$> products_seed |}.

(** The id handed out by a request, if it created a product. *)
Definition created (res : Result) : list string :=
  match payload (response res) with
  | BProduct p => if status (response res) =? 201 then [Product.id p] else []
  | _ => []
  end.

Definition step (e : Env) (w : World) (ev : Event) : World :=
  let res := app e (ev_rnds ev) (ev_req ev) (store w) in
  {| store := products res; issued := issued w ++ created res |}.

Definition run (e : Env) (w : World) (evs : list Event) : World :=
  foldl (step e) w evs.

(** The assumption on the generator: an id it hands out was not issued
    before. *)
Fixpoint fresh (e : Env) (w : World) (evs : list Event) : Prop :=
  match evs with
  | [] => True
  | ev :: evs' =>
      Forall (fun i => i ∉ issued w)
        (created (app e (ev_rnds ev) (ev_req ev) (store w)))
      /\ fresh e (step e w ev) evs'
  end.

#[global] Instance fresh_dec e w evs : Decision (fresh e w evs).
Proof. revert w. induction evs as [|ev evs IH]; simpl; intros w; apply _. Defined.

(** The sixteen bytes [uuidv4] prints: the random bytes with the version and
    the variant forced.  Their other 122 bits are the generator's. *)
Definition uuid_bytes (r : Uuid.Rnds) : list N :=
  (fun i =>
     match i with
     | 6%nat => N.lor (N.land (Uuid.rnd r 6) 15) 64
     | 8%nat => N.lor (N.land (Uuid.rnd r 8) 63) 128
     | _ => Uuid.rnd r i
     end) <$> seq 0 16.

(** Reading an id back: the value of a hexadecimal digit, of a pair of them,
    and the sixteen pairs at their places in the 8-4-4-4-12 layout. *)
Definition hex_value (c : ascii) : N :=
  let n := N_of_ascii c in
  if (n <? 58)%N then (n - 48)%N else (n - 87)%N.

Definition hex_pair (a b : ascii) : N := (16 * hex_value a + hex_value b)%N.

Definition uuid_parse (s : string) : list N :=
  match s with
  | String a0 (String b0 (String a1 (String b1 (String a2 (String b2
    (String a3 (String b3 (String _
    (String a4 (String b4 (String a5 (String b5 (String _
    (String a6 (String b6 (String a7 (String b7 (String _
    (String a8 (String b8 (String a9 (String b9 (String _
    (String a10 (String b10 (String a11 (String b11 (String a12 (String b12
    (String a13 (String b13 (String a14 (String b14 (String a15 (String b15
     EmptyString))))))))))))))))))))))))))))))))))) =>
      [ hex_pair a0 b0; hex_pair a1 b1; hex_pair a2 b2; hex_pair a3 b3;
        hex_pair a4 b4; hex_pair a5 b5; hex_pair a6 b6; hex_pair a7 b7;
        hex_pair a8 b8; hex_pair a9 b9; hex_pair a10 b10; hex_pair a11 b11;
        hex_pair a12 b12; hex_pair a13 b13; hex_pair a14 b14; hex_pair a15 b15 ]
  | _ => []
  end.

(** The random bytes drawn by the creations of a run, in the order of the
    requests. *)
Fixpoint draws (e : Env) (w : World) (evs : list Event) : list Uuid.Rnds :=
  match evs with
  | [] => []
  | ev :: evs' =>
      match created (app e (ev_rnds ev) (ev_req ev) (store w)) with
      | [] => []
      | _ => [ev_rnds ev]
      end ++ draws e (step e w ev) evs'
  end.

(** ** Vocabulary of the properties *)

(** The request carries the configured key ([authMiddleware] lets it pass). *)
Definition authorized (e : Env) (rq : Request) : Prop :=
  exists k, api_key rq = Some k /\ k <> "" /\ API_KEY e = Some k.

(** The request is [m /api/p...]. *)
Definition targets (rq : Request) (m : Method) (p : list string) : Prop :=
  method rq = m /\ path rq = "api" :: p.

Definition answer (st : Z) (b : Body) : Response :=
  {| status := st; payload := b |}.

(** The five fields a payload may carry, with the property name, the type the
    validators ask for, and the accessor on a stored product. *)
Inductive Field := F_name | F_description | F_price | F_category | F_inStock.

Definition field_key (f : Field) : string :=
  match f with
  | F_name => "name"
  | F_description => "description"
  | F_price => "price"
  | F_category => "category"
  | F_inStock => "inStock"
  end.

Definition field_type (f : Field) : JsType :=
  match f with
  | F_name | F_description | F_category => TString
  | F_price => TNumber
  | F_inStock => TBoolean
  end.

Definition field_get (f : Field) (p : Product.t) : Value :=
  match f with
  | F_name => Product.name p
  | F_description => Product.description p
  | F_price => Product.price p
  | F_category => Product.category p
  | F_inStock => Product.inStock p
  end.

#[global] Instance Field_eq_dec : EqDecision Field.
Proof. solve_decision. Defined.

(** What the payload gives for a field. *)
Definition given (b : gmap string Value) (f : Field) : Value :=
  prop b (field_key f).

(** All five fields are present with their declared types. *)
Definition typed_body (b : gmap string Value) : Prop :=
  forall f, typeof (given b f) = field_type f.

(** A stored product has its five fields with their declared types. *)
Definition well_typed (p : Product.t) : Prop :=
  forall f, typeof (field_get f p) = field_type f.

(** The payloads the creation validator lets through: typed, and the texts
    and the price truthy. *)
Definition creation_accepted (b : gmap string Value) : Prop :=
  forall f, typeof (given b f) = field_type f
            /\ (f <> F_inStock -> truthy (given b f) = true).

(** The payloads the update validator lets through: a truthy text or price
    has its type, and [inStock] is absent or a boolean. *)
Definition update_accepted (b : gmap string Value) : Prop :=
  forall f, if decide (f = F_inStock)
            then given b f = VUndefined \/ typeof (given b f) = field_type f
            else truthy (given b f) = true -> typeof (given b f) = field_type f.

#[global] Instance is_text_dec (v : Value) (s : string) : Decision (v = VStr s).
Proof.
  destruct v as [| | | |t| |]; try (right; discriminate).
  destruct (decide (t = s)) as [->|Hne]; [by left | right; congruence].
Defined.

(** The window of positions [a <= i < b] of a list. *)
Definition window {A} (a b : nat) (l : list A) : list A :=
  take (b - a) (drop a l).

(** The ids of a collection. *)
Definition ids (ps : list Product.t) : list string := Product.id <$> ps.

(** The product a validated creation payload becomes. *)
Definition newProduct (r : Uuid.Rnds) (b : gmap string Value) : Product.t :=
  Product.mk (uuidv4 r) (prop b "name") (prop b "description")
    (prop b "price") (prop b "category") (prop b "inStock").

(** What one request can do to the collection: nothing (and then it is not
    answered 201), append a validated new product, merge a validated payload
    into the product at one index, or remove the product at one index. *)
Inductive effect (r : Uuid.Rnds) (b : gmap string Value) (ps : list Product.t)
  : Response -> list Product.t -> Prop :=
| effect_none res :
    status res <> 201 -> effect r b ps res ps
| effect_create :
    creation_accepted b ->
    effect r b ps (answer 201 (BProduct (newProduct r b))) (ps ++ [newProduct r b])
| effect_update k p :
    ps !! k = Some p -> update_accepted b ->
    effect r b ps (answer 200 (BProduct (merge b p))) (<[k := merge b p]> ps)
| effect_delete k p :
    ps !! k = Some p ->
    effect r b ps (answer 204 BEmpty) (delete k ps).

(** The state a run keeps: ids are unique, every id in the collection is in
    the log, and every stored product is well typed. *)
Definition consistent (w : World) : Prop :=
  NoDup (ids (store w))
  /\ (forall i, i ∈ ids (store w) -> i ∈ issued w)
  /\ Forall well_typed (store w).

(** An id is a seed id or a string [uuidv4] printed. *)
Definition id_shape (i : string) : Prop :=
  i ∈ ids products_seed \/ exists r, i = uuidv4 r.

(** The same request with field [f] left out of the payload. *)
Definition without (f : Field) (rq : Request) : Request :=
  {| method := method rq; path := path rq; api_key := api_key rq;
     query := query rq; body := delete (field_key f) (body rq) |}.

(** The products a category parameter selects: all of them when it is absent
    or empty. *)
Definition selection (c : option string) (ps : list Product.t)
  : list Product.t :=
  match c with
  | Some c =>
      if decide (c = "") then ps
      else filter (fun p => Product.category p = VStr c) ps
  | None => ps
  end.

(** The lower-cased name of the product includes the term. *)
Definition name_matches (term : string) (p : Product.t) : bool :=
  match Product.name p with
  | VStr s => JsString.includes (JsString.toLowerCase s) term
  | _ => false
  end.

(** The number of products of a category. *)
Definition in_category (c : string) (ps : list Product.t) : Z :=
  Z.of_nat (length (filter (fun p => Product.category p = VStr c) ps)).

(** The routes an authorized request can take, as a table on the method and
    the path below /api: the layer that answers and the outcome of its
    handlers.  [route_table] below shows that the walk over [apiRouter] agrees
    with it. *)
Definition is_products (a : string) : bool :=
  String.eqb (JsString.toLowerCase a) "products".

Definition after (validator handler : Handler) : Handler := fun ctx ps =>
  match validator ctx ps with
  | Next => handler ctx ps
  | o => o
  end.

Definition routing_table (e : Env) (r : Uuid.Rnds) (rq : Request)
    (p : list string) (ps : list Product.t) : list LayerName * Outcome :=
  match method rq, p with
  | GET, [a] =>
      if is_products a
      then ([L_list], listProducts (Build_Ctx e r rq ∅) ps)
      else ([], Next)
  | GET, [a; i] =>
      if is_products a
      then ([L_get], getProduct (Build_Ctx e r rq {["id" := i]}) ps)
      else ([], Next)
  | POST, [a] =>
      if is_products a
      then ([L_create],
            after validateProductCreation createProduct (Build_Ctx e r rq ∅) ps)
      else ([], Next)
  | PUT, [a; i] =>
      if is_products a
      then ([L_update],
            after validateProductUpdate updateProduct
              (Build_Ctx e r rq {["id" := i]}) ps)
      else ([], Next)
  | DELETE, [a; i] =>
      if is_products a
      then ([L_delete], deleteProduct (Build_Ctx e r rq {["id" := i]}) ps)
      else ([], Next)
  | _, _ => ([], Next)
  end.

(** Every way a request can end, with the layers that ran, the answer and the
    collection it leaves.  [app_exchange] below shows that [app] always ends
    in one of them. *)
Inductive exchange (e : Env) (r : Uuid.Rnds) (rq : Request)
    (ps : list Product.t) : Result -> Prop :=
| ex_welcome :
    path rq = [] -> method rq = GET ->
    exchange e r rq ps (Build_Result [] (answer 200 (BText welcome)) ps)
| ex_unrouted ran :
    ran = [] \/ (ran = [L_auth] /\ authorized e rq) ->
    exchange e r rq ps (Build_Result ran notRouted ps)
| ex_unauthorized :
    ~ authorized e rq ->
    exchange e r rq ps
      (Build_Result [L_auth] (answer 401 (BError "Unauthorized")) ps)
| ex_list page limit total shown :
    authorized e rq -> method rq = GET ->
    exchange e r rq ps
      (Build_Result [L_auth; L_list]
         (answer 200 (BPage page limit total shown)) ps)
| ex_get k p :
    authorized e rq -> method rq = GET -> ps !! k = Some p ->
    exchange e r rq ps
      (Build_Result [L_auth; L_get] (answer 200 (BProduct p)) ps)
| ex_missing l :
    authorized e rq -> l ∈ [L_get; L_update; L_delete] ->
    exchange e r rq ps
      (Build_Result [L_auth; l] (answer 404 (BError "Product not found")) ps)
| ex_invalid l m :
    authorized e rq -> l ∈ [L_create; L_update] ->
    exchange e r rq ps (Build_Result [L_auth; l] (answer 400 (BError m)) ps)
| ex_created :
    authorized e rq -> method rq = POST -> creation_accepted (body rq) ->
    exchange e r rq ps
      (Build_Result [L_auth; L_create]
         (answer 201 (BProduct (newProduct r (body rq))))
         (ps ++ [newProduct r (body rq)]))
| ex_updated k p :
    authorized e rq -> method rq = PUT -> ps !! k = Some p ->
    update_accepted (body rq) ->
    exchange e r rq ps
      (Build_Result [L_auth; L_update]
         (answer 200 (BProduct (merge (body rq) p)))
         (<[k := merge (body rq) p]> ps))
| ex_deleted k p :
    authorized e rq -> method rq = DELETE -> ps !! k = Some p ->
    exchange e r rq ps
      (Build_Result [L_auth; L_delete] (answer 204 BEmpty) (delete k ps)).

(** The incoming request carries the configured key. *)
Definition authorized_in (e : Env) (i : Incoming) : Prop :=
  exists k, in_key i = Some k /\ k <> "" /\ API_KEY e = Some k.

(** The parser handed the request on. *)
Definition handed_on (i : Incoming) : Prop :=
  forall st message, in_body i <> Refused st message.


(** The answer to OPTIONS on the path [p] below /api. *)
Definition allow (p : list string) : Response :=
  match p with
  | [a] =>
      if is_products a then answer 200 (BAllow ["GET"; "HEAD"; "POST"])
      else notRouted
  | [a; _] =>
      if is_products a then answer 200 (BAllow ["GET"; "HEAD"; "PUT"; "DELETE"])
      else notRouted
  | _ => notRouted
  end.

(** A result as Express sends it to [i]. *)
Definition sent (i : Incoming) (res : Result) : Result :=
  {| ran := ran res; response := deliver i (response res);
     products := products res |}.



(** A number [n] and an integer [z] are the same index into an array of
    length [len]: they are equal, or both lie beyond the same end of the
    array, where [slice] clamps them to the same position.  Any two are, into
    the empty array. *)
Definition indexes_alike (len : Z) (n : JsNumber.t) (z : Z) : Prop :=
  len = 0 \/
  match n with
  | JsNumber.Fin m =>
      m = z \/ (len <= m /\ len <= z) \/ (m <= - len /\ z <= - len)
  | JsNumber.PInf => len <= z
  | JsNumber.NInf => z <= - len
  | JsNumber.NaN => False
  end.

(** ** A concrete deployment, for the examples *)

Definition key_example : string := "mysecretkey254".

Definition env_example : Env := {| API_KEY := Some key_example |}.

(** An authorized request for [m /api/p...]. *)
Definition request (m : Method) (p : list string) (q : list (string * string))
    (b : list (string * Value)) : Request :=
  {| method := m; path := "api" :: p; api_key := Some key_example;
     query := list_to_map q; body := list_to_map b |}.


Definition rnds_example : Uuid.Rnds :=
  [ x10; x9a; x3f; xc2; x07; x5e; xd1; x44; x2b; x88; x61; xee; x0c; x73;
    xa5; xf9 ].

Definition body_example : list (string * Value) :=
  [ ("name", VStr "New Product"); ("description", VStr "Description");
    ("price", num 100); ("category", VStr "electronics");
    ("inStock", VBool true) ].

(** Create the README's product, reprice the laptop, delete the smartphone. *)
Definition trace_example : list Event :=
  [ Build_Event rnds_example (request POST ["products"] [] body_example);
    Build_Event [] (request PUT ["products"; "1"] [] [("price", num 999)]);
    Build_Event [] (request DELETE ["products"; "2"] [] []) ].

(** * Properties *)

(** ** Access guard *)

Lemma authMiddleware_rejects e r rq prm ps :
  api_key rq = None \/ api_key rq <> API_KEY e ->
  authMiddleware (Build_Ctx e r rq prm) ps = Fail (UnauthorizedError "Unauthorized").
Proof.
  intros H. unfold authMiddleware; simpl.
  destruct (api_key rq) as [k|] eqn:Hk; [|done].
  destruct H as [H|H]; [done|].
  rewrite bool_decide_eq_false_2; [|done].
  by rewrite andb_false_r.
Qed.

Lemma authMiddleware_accepts e r rq prm ps :
  authorized e rq -> authMiddleware (Build_Ctx e r rq prm) ps = Next.
Proof.
  intros (k & Hk & Hne & He). unfold authMiddleware; simpl.
  rewrite Hk, He, bool_decide_eq_true_2; [|done].
  destruct k; [done|reflexivity].
Qed.

(** ** Values and validators *)

Lemma is_type_true v t : is_type v t = true <-> typeof v = t.
Proof. unfold is_type. destruct (typeof v), t; simpl; split; congruence. Qed.

Lemma is_undefined_true v : is_undefined v = true <-> v = VUndefined.
Proof. destruct v; simpl; split; congruence. Qed.

Lemma strict_eq_str_true v s : strict_eq_str v s = true <-> v = VStr s.
Proof.
  destruct v; simpl; try (split; congruence).
  rewrite String.eqb_eq. split; congruence.
Qed.

Lemma forall_fields (P : Field -> Prop) :
  (forall f, P f)
  <-> P F_name /\ P F_description /\ P F_price /\ P F_category /\ P F_inStock.
Proof.
  split; [intros H; repeat split; apply H|].
  intros (?&?&?&?&?) []; assumption.
Qed.

Lemma validateProductCreation_accepts ctx ps :
  creation_accepted (body (req ctx)) -> validateProductCreation ctx ps = Next.
Proof.
  intros H. unfold creation_accepted in H. apply (proj1 (forall_fields _)) in H. unfold given in H. simpl in H.
  destruct H as ([Tn Vn]&[Td Vd]&[Tp Vp]&[Tc Vc]&[Ts _]).
  unfold validateProductCreation.
  rewrite Vn, Vd, Vp, Vc by done. 
  apply is_type_true in Tn, Td, Tp, Tc, Ts. rewrite Tn, Td, Tp, Tc, Ts.
  destruct (prop (body (req ctx)) "inStock"); simpl in *; try discriminate; done.
Qed.

Lemma validateProductCreation_next ctx ps :
  validateProductCreation ctx ps = Next -> creation_accepted (body (req ctx)).
Proof.
  unfold validateProductCreation.
  match goal with |- context [if ?c then _ else _] => destruct c eqn:Hc end;
    [discriminate|].
  match goal with |- context [if ?c then _ else _] => destruct c eqn:Ht end;
    [discriminate|].
  intros _.
  repeat (apply orb_false_elim in Hc as [Hc ?]).
  repeat (apply orb_false_elim in Ht as [Ht ?]).
  unfold creation_accepted.
  apply (proj2 (forall_fields _)); unfold given; simpl.
  repeat match goal with
         | H : negb _ = false |- _ => apply negb_false_iff in H
         end.
  repeat match goal with
         | H : is_type _ _ = true |- _ => apply is_type_true in H
         end.
  repeat split; auto; done.
Qed.

Lemma validateProductCreation_rejects ctx ps :
  ~ creation_accepted (body (req ctx)) ->
  validateProductCreation ctx ps = Fail (ValidationError "All fields are required")
  \/ validateProductCreation ctx ps = Fail (ValidationError "Invalid data types").
Proof.
  intros H. pose proof (validateProductCreation_next ctx ps) as Hn.
  unfold validateProductCreation in *.
  match goal with |- context [if ?c then _ else _] => destruct c end; [by left|].
  match goal with |- context [if ?c then _ else _] => destruct c end; [by right|].
  destruct H. by apply Hn.
Qed.

Lemma validateProductUpdate_accepts ctx ps :
  update_accepted (body (req ctx)) -> validateProductUpdate ctx ps = Next.
Proof.
  intros H. unfold update_accepted in H.
  apply (proj1 (forall_fields _)) in H. unfold given in H. simpl in H.
  destruct H as (Tn & Td & Tp & Tc & Ts).
  unfold validateProductUpdate.
  destruct (truthy (prop _ "name"));
    [rewrite (proj2 (is_type_true _ _) (Tn eq_refl))|]; simpl.
  all: destruct (truthy (prop _ "description"));
    [rewrite (proj2 (is_type_true _ _) (Td eq_refl))|]; simpl.
  all: destruct (truthy (prop _ "price"));
    [rewrite (proj2 (is_type_true _ _) (Tp eq_refl))|]; simpl.
  all: destruct (truthy (prop _ "category"));
    [rewrite (proj2 (is_type_true _ _) (Tc eq_refl))|]; simpl.
  all: destruct Ts as [-> | Ts]; [done|].
  all: by rewrite (proj2 (is_type_true _ _) Ts), andb_false_r.
Qed.

Lemma validateProductUpdate_next ctx ps :
  validateProductUpdate ctx ps = Next -> update_accepted (body (req ctx)).
Proof.
  unfold validateProductUpdate.
  repeat match goal with
         | |- context [if ?c then Fail _ else _] =>
             destruct c eqn:?; [discriminate|]
         end.
  intros _. unfold update_accepted.
  apply (proj2 (forall_fields _)); unfold given; simpl.
  repeat match goal with
         | H : _ && _ = false |- _ => apply andb_false_iff in H
         end.
  repeat split.
  1-4: intros Hv;
       match goal with
       | H : truthy ?v = false \/ negb (is_type ?v _) = false,
         Hv : truthy ?v = true |- typeof ?v = _ =>
           destruct H as [H|H]; [congruence|];
           apply negb_false_iff in H; by apply is_type_true
       end.
  match goal with
  | H' : negb (is_undefined _) = false \/ _ |- _ => destruct H' as [Hs|Hs]
  end.
  - left. apply negb_false_iff in Hs. by apply is_undefined_true.
  - right. apply negb_false_iff in Hs. by apply is_type_true.
Qed.

Lemma validateProductUpdate_rejects ctx ps :
  ~ update_accepted (body (req ctx)) ->
  exists m, validateProductUpdate ctx ps = Fail (ValidationError m).
Proof.
  intros H. pose proof (validateProductUpdate_next ctx ps) as Hn.
  unfold validateProductUpdate in *.
  repeat match goal with
         | |- context [if ?c then Fail _ else _] => destruct c; [by eexists|]
         end.
  destruct H. by apply Hn.
Qed.
(** ** Dispatch *)

Lemma route_skip l rest e r rq p ps :
  layer_match l (method rq) p = None ->
  route (l :: rest) e r rq p ps = route rest e r rq p ps.
Proof. intros H. simpl. by rewrite H. Qed.

Lemma route_next l rest e r rq p ps prm :
  layer_match l (method rq) p = Some prm ->
  run_handlers (layer_stack l) (Build_Ctx e r rq prm) ps = Next ->
  route (l :: rest) e r rq p ps
  = (layer_name l :: (route rest e r rq p ps).1, (route rest e r rq p ps).2).
Proof. intros H1 H2. simpl. rewrite H1, H2. by destruct (route rest e r rq p ps). Qed.

Lemma route_stop l rest e r rq p ps prm :
  layer_match l (method rq) p = Some prm ->
  run_handlers (layer_stack l) (Build_Ctx e r rq prm) ps <> Next ->
  route (l :: rest) e r rq p ps
  = ([layer_name l], run_handlers (layer_stack l) (Build_Ctx e r rq prm) ps).
Proof. intros H1 H2. simpl. rewrite H1. by destruct (run_handlers _ _ _). Qed.

Lemma app_api e r rq p ps :
  path rq = "api" :: p ->
  app e r rq ps
  = conclude (route apiRouter e r rq p ps).1 (route apiRouter e r rq p ps).2 ps.
Proof. intros H. unfold app. rewrite H. by destruct (route apiRouter e r rq p ps). Qed.

Lemma auth_then e r rq p ps rest :
  authorized e rq ->
  route (Build_Layer L_auth None None [authMiddleware] :: rest) e r rq p ps
  = (L_auth :: (route rest e r rq p ps).1, (route rest e r rq p ps).2).
Proof.
  intros Ha. erewrite route_next; [done|reflexivity|].
  simpl. by rewrite authMiddleware_accepts.
Qed.

(** The path an authorized request takes through [apiRouter], route by
    route. *)

Ltac walk Ha Hm :=
  unfold apiRouter; rewrite auth_then by exact Ha;
  repeat (rewrite route_skip by (rewrite Hm; reflexivity)).

Lemma app_list e r rq ps :
  authorized e rq -> targets rq GET ["products"] ->
  app e r rq ps
  = conclude [L_auth; L_list] (listProducts (Build_Ctx e r rq ∅) ps) ps.
Proof.
  intros Ha [Hm Hp]. rewrite (app_api _ _ _ _ _ Hp). walk Ha Hm.
  erewrite route_stop; [reflexivity | by rewrite Hm | done].
Qed.

Lemma app_get e r rq ps i :
  authorized e rq -> targets rq GET ["products"; i] ->
  app e r rq ps
  = conclude [L_auth; L_get] (getProduct (Build_Ctx e r rq {["id" := i]}) ps) ps.
Proof.
  intros Ha [Hm Hp]. rewrite (app_api _ _ _ _ _ Hp). walk Ha Hm.
  erewrite route_stop; [| by rewrite Hm |]; simpl; unfold getProduct;
    by destruct (list_find _ _) as [[??]|].
Qed.

Lemma app_create e r rq ps :
  authorized e rq -> targets rq POST ["products"] ->
  app e r rq ps
  = conclude [L_auth; L_create]
      (match validateProductCreation (Build_Ctx e r rq ∅) ps with
       | Next => createProduct (Build_Ctx e r rq ∅) ps
       | o => o
       end) ps.
Proof.
  intros Ha [Hm Hp]. rewrite (app_api _ _ _ _ _ Hp). walk Ha Hm.
  erewrite route_stop; [| by rewrite Hm |]; simpl;
    by destruct (validateProductCreation _ _).
Qed.

Lemma app_update e r rq ps i :
  authorized e rq -> targets rq PUT ["products"; i] ->
  app e r rq ps
  = conclude [L_auth; L_update]
      (match validateProductUpdate (Build_Ctx e r rq {["id" := i]}) ps with
       | Next => updateProduct (Build_Ctx e r rq {["id" := i]}) ps
       | o => o
       end) ps.
Proof.
  intros Ha [Hm Hp]. rewrite (app_api _ _ _ _ _ Hp). walk Ha Hm.
  erewrite route_stop; [| by rewrite Hm |]; simpl;
    destruct (validateProductUpdate _ _); try done;
    unfold updateProduct; by destruct (list_find _ _) as [[??]|].
Qed.

Lemma app_delete e r rq ps i :
  authorized e rq -> targets rq DELETE ["products"; i] ->
  app e r rq ps
  = conclude [L_auth; L_delete]
      (deleteProduct (Build_Ctx e r rq {["id" := i]}) ps) ps.
Proof.
  intros Ha [Hm Hp]. rewrite (app_api _ _ _ _ _ Hp). walk Ha Hm.
  erewrite route_stop; [| by rewrite Hm |]; simpl; unfold deleteProduct;
    by destruct (list_find _ _) as [[??]|].
Qed.

(** Looking a product up by the [:id] parameter. *)
Lemma find_by_id e r rq i ps :
  list_find (has_id (Build_Ctx e r rq {["id" := i]})) ps
  = list_find (fun p => Product.id p = i) ps.
Proof.
  induction ps as [|p ps IH]; [done|].
  simpl. rewrite IH. unfold has_id; simpl.
  destruct (decide (Some _ = _)) as [H|H], (decide (Product.id p = i)) as [H'|H'];
    try done; rewrite lookup_singleton_eq in H; congruence.
Qed.

(** ** What a request can do to the collection *)

Lemma list_find_lookup {A} (P : A -> Prop) `{!forall x, Decision (P x)}
    (l : list A) k x :
  list_find P l = Some (k, x) -> l !! k = Some x /\ P x.
Proof. intros Hf. apply list_find_Some in Hf. tauto. Qed.

Lemma validateProductCreation_silent ctx ps res ps' :
  validateProductCreation ctx ps <> Respond res ps'.
Proof. unfold validateProductCreation. by repeat case_match. Qed.

Lemma validateProductUpdate_silent ctx ps res ps' :
  validateProductUpdate ctx ps <> Respond res ps'.
Proof. unfold validateProductUpdate. by repeat case_match. Qed.

Lemma layer_effect l e r rq prm ps res ps' :
  l ∈ apiRouter ->
  run_handlers (layer_stack l) (Build_Ctx e r rq prm) ps = Respond res ps' ->
  effect r (body rq) ps res ps'.
Proof.
  unfold apiRouter. intros Hl.
  repeat (apply elem_of_cons in Hl as [-> | Hl]); [..|by apply elem_of_nil in Hl];
    simpl.
  - unfold authMiddleware; simpl. by repeat case_match.
  - unfold listProducts. intros [= <- <-]. by apply effect_none.
  - unfold getProduct. destruct (list_find _ _) as [[??]|]; [|done].
    intros [= <- <-]. by apply effect_none.
  - destruct (validateProductCreation _ _) eqn:Hv; try done;
      [by apply validateProductCreation_silent in Hv|].
    apply validateProductCreation_next in Hv.
    unfold createProduct; simpl. intros [= <- <-]. by apply effect_create.
  - destruct (validateProductUpdate _ _) eqn:Hv; try done;
      [by apply validateProductUpdate_silent in Hv|].
    apply validateProductUpdate_next in Hv.
    unfold updateProduct; simpl.
    destruct (list_find _ _) as [[k p]|] eqn:Hf; [|done].
    apply list_find_lookup in Hf as [Hk _].
    intros [= <- <-]. by apply effect_update.
  - unfold deleteProduct.
    destruct (list_find _ _) as [[k p]|] eqn:Hf; [|done].
    apply list_find_lookup in Hf as [Hk _].
    intros [= <- <-]. by eapply effect_delete.
  - unfold searchProducts. destruct (filter_by_name _ _); [done|].
    intros [= <- <-]. by apply effect_none.
  - unfold statsProducts. destruct (foldl _ _ _); intros [= <- <-];
      by apply effect_none.
Qed.

Lemma route_effect stack e r rq p ps res ps' :
  (forall l, l ∈ stack -> l ∈ apiRouter) ->
  (route stack e r rq p ps).2 = Respond res ps' ->
  effect r (body rq) ps res ps'.
Proof.
  induction stack as [|l stack IH]; simpl; [done|]. intros Hin.
  destruct (layer_match l (method rq) p) as [prm|].
  - destruct (run_handlers _ _ _) eqn:Hr.
    + simpl. intros [= <- <-]. eapply layer_effect, Hr. apply Hin. by left.
    + destruct (route stack e r rq p ps) eqn:Hrest. simpl in *.
      apply IH. intros; apply Hin. by right.
    + done.
  - apply IH. intros; apply Hin. by right.
Qed.

Lemma errorHandler_status err : status (errorHandler err) <> 201.
Proof. by destruct err. Qed.

Lemma app_effect e r rq ps :
  effect r (body rq) ps (response (app e r rq ps)) (products (app e r rq ps)).
Proof.
  unfold app. destruct (path rq) as [|mount p].
  - case_bool_decide; by apply effect_none.
  - destruct (String.eqb _ _); [|by apply effect_none].
    destruct (route apiRouter e r rq p ps) as [ran o] eqn:Hr.
    destruct o as [res ps'| |err]; simpl.
    + eapply route_effect; [|by rewrite Hr]. done.
    + by apply effect_none.
    + apply effect_none, errorHandler_status.
Qed.

(** ** Identifiers *)

Lemma uuidv4_length r : String.length (uuidv4 r) = 36%nat.
Proof. reflexivity. Qed.

Lemma hex_value_digit x : (x < 16)%N -> hex_value (Uuid.hex_digit x) = x.
Proof.
  intros Hx.
  assert (H : (x = 0 \/ x = 1 \/ x = 2 \/ x = 3 \/ x = 4 \/ x = 5 \/ x = 6
              \/ x = 7 \/ x = 8 \/ x = 9 \/ x = 10 \/ x = 11 \/ x = 12
              \/ x = 13 \/ x = 14 \/ x = 15)%N) by lia.
  repeat (destruct H as [->|H]; [reflexivity|]). by subst.
Qed.

Lemma hex_pair_byte n :
  (n < 256)%N ->
  hex_pair (Uuid.hex_digit ((n / 16) mod 16)) (Uuid.hex_digit (n mod 16)) = n.
Proof.
  intros Hn. unfold hex_pair.
  rewrite !hex_value_digit by (apply N.mod_lt; lia).
  rewrite N.mod_small by (apply N.Div0.div_lt_upper_bound; lia).
  pose proof (N.div_mod n 16 ltac:(lia)). lia.
Qed.

Lemma uuid_bytes_bounded r : Forall (fun n => n < 256)%N (uuid_bytes r).
Proof.
  assert (Hr : forall i, (Uuid.rnd r i < 256)%N).
  { intros i. unfold Uuid.rnd. pose proof (Byte.to_N_bounded (nth i r x00)). lia. }
  unfold uuid_bytes. simpl.
  repeat (apply Forall_cons; split; [try apply Hr|]); try apply Forall_nil_2.
  - unfold Uuid.rnd. destruct (nth 6 r x00); reflexivity.
  - unfold Uuid.rnd. destruct (nth 8 r x00); reflexivity.
Qed.

(** Parsing the id gives back the bytes it was printed from. *)
Lemma uuid_parse_v4 r : uuid_parse (uuidv4 r) = uuid_bytes r.
Proof.
  pose proof (uuid_bytes_bounded r) as Hb.
  unfold uuid_bytes in *. simpl in Hb.
  repeat match goal with
         | H : Forall _ (_ :: _) |- _ => apply Forall_cons in H as [? H]
         end.
  unfold uuidv4, Uuid.v4, Uuid.unsafeStringify, Uuid.byteToHex.
  cbv [String.concat String.append uuid_parse fmap list_fmap seq].
  by rewrite !hex_pair_byte.
Qed.

Lemma uuidv4_inj r r' : uuidv4 r = uuidv4 r' <-> uuid_bytes r = uuid_bytes r'.
Proof.
  split; intros H.
  - by rewrite <- !uuid_parse_v4, H.
  - unfold uuid_bytes in H. cbn [fmap list_fmap seq] in H.
    unfold uuidv4, Uuid.v4, Uuid.unsafeStringify. cbv beta zeta.
    injection H. intros. congruence.
Qed.

Lemma uuidv4_not_seed r : uuidv4 r ∉ ids products_seed.
Proof.
  intros H. pose proof (uuidv4_length r) as L.
  unfold ids, products_seed in H. simpl in H.
  repeat (apply elem_of_cons in H as [H|H]; [by rewrite H in L|]).
  by apply elem_of_nil in H.
Qed.

Lemma id_shape_length i :
  id_shape i -> String.length i = 1%nat \/ String.length i = 36%nat.
Proof.
  intros [H | [r ->]]; [left | right; apply uuidv4_length].
  unfold ids, products_seed in H. simpl in H.
  repeat (apply elem_of_cons in H as [->|H]; [done|]).
  by apply elem_of_nil in H.
Qed.

Lemma merge_id b p : Product.id (merge b p) = Product.id p.
Proof. reflexivity. Qed.

Lemma ids_insert_merge b ps k p :
  ps !! k = Some p -> ids (<[k := merge b p]> ps) = ids ps.
Proof.
  intros H. unfold ids. rewrite list_fmap_insert, merge_id.
  apply list_insert_id. by rewrite list_lookup_fmap, H.
Qed.

(** The ids after a request: the same, one more (the generated one), or one
    removed. *)
Lemma effect_ids r b ps res ps' :
  effect r b ps res ps' ->
  (ids ps' = ids ps /\ created (Build_Result [] res ps') = [])
  \/ (ids ps' = (ids ps ++ [uuidv4 r])%list
      /\ created (Build_Result [] res ps') = [uuidv4 r])
  \/ (exists k, ids ps' = delete k (ids ps)
      /\ created (Build_Result [] res ps') = []).
Proof.
  destruct 1 as [res Hs | Hc | k p Hk Hu | k p Hk].
  - left. split; [done|]. unfold created; simpl.
    destruct (payload res); try done. by destruct (Z.eqb_spec (status res) 201).
  - right; left. unfold ids. by rewrite fmap_app.
  - left. by rewrite ids_insert_merge.
  - right; right. exists k. unfold ids. by rewrite list_fmap_delete.
Qed.

Lemma created_irrelevant ran ran' res ps ps' :
  created (Build_Result ran res ps) = created (Build_Result ran' res ps').
Proof. reflexivity. Qed.

(** ** Types of the stored fields *)

Lemma newProduct_well_typed r b :
  creation_accepted b -> well_typed (newProduct r b).
Proof. intros H f. destruct (H f) as [T _]. by destruct f. Qed.

Lemma merge_well_typed b p :
  update_accepted b -> well_typed p -> well_typed (merge b p).
Proof.
  intros Hb Hp f. specialize (Hb f). specialize (Hp f).
  destruct f; simpl in *; unfold given, js_or in *; simpl in *;
    try (destruct (truthy _); [by apply Hb | done]).
  destruct Hb as [-> | Hb]; [done|].
  by destruct (prop b "inStock").
Qed.

Lemma effect_well_typed r b ps res ps' :
  effect r b ps res ps' -> Forall well_typed ps -> Forall well_typed ps'.
Proof.
  destruct 1 as [res Hs | Hc | k p Hk Hu | k p Hk]; intros Hps.
  - done.
  - apply Forall_app; split; [done|].
    by apply Forall_singleton, newProduct_well_typed.
  - apply Forall_insert; [done|]. apply merge_well_typed; [done|].
    eapply Forall_lookup_1; eauto.
  - by apply Forall_delete.
Qed.

(** ** Invariants of a run *)

Lemma seed_consistent : consistent world_seed.
Proof.
  split; [|split].
  - by apply (bool_decide_unpack _).
  - done.
  - unfold world_seed, products_seed; simpl.
    repeat (apply Forall_cons; split; [by intros []|]). done.
Qed.

Lemma step_consistent e w ev :
  consistent w ->
  Forall (fun i => i ∉ issued w)
    (created (app e (ev_rnds ev) (ev_req ev) (store w))) ->
  consistent (step e w ev).
Proof.
  intros (Hnd & Hlog & Hty) Hfresh.
  pose proof (app_effect e (ev_rnds ev) (ev_req ev) (store w)) as Heff.
  unfold step, consistent; simpl.
  destruct (app e (ev_rnds ev) (ev_req ev) (store w)) as [ran res ps'].
  simpl in *. split; [|split].
  - apply effect_ids in Heff as [[-> _] | [[-> Hc] | (k & -> & _)]].
    + done.
    + rewrite (created_irrelevant ran [] res ps' ps'), Hc in Hfresh.
      rewrite Forall_singleton in Hfresh.
      apply NoDup_app; repeat split; [done| |apply NoDup_singleton].
      intros i Hi ->%list_elem_of_singleton. by apply Hfresh, Hlog.
    + eapply sublist_NoDup; [|apply sublist_delete]. done.
  - intros i Hi. apply elem_of_app.
    apply effect_ids in Heff as [[Hids _] | [[Hids Hc] | (k & Hids & _)]];
      rewrite Hids in Hi.
    + left. by apply Hlog.
    + rewrite (created_irrelevant ran [] res ps' ps'), Hc.
      apply elem_of_app in Hi as [Hi|Hi]; [left; by apply Hlog | by right].
    + left. by apply Hlog, (list_elem_of_delete_inv _ k).
  - eapply effect_well_typed; eauto.
Qed.

Lemma run_consistent e evs w :
  consistent w -> fresh e w evs -> consistent (run e w evs).
Proof.
  revert w. induction evs as [|ev evs IH]; intros w Hw Hf; [done|].
  destruct Hf as [Hf1 Hf2]. simpl. apply IH; [|done].
  by apply step_consistent.
Qed.

Lemma run_snoc e w evs ev : run e w (evs ++ [ev]) = step e (run e w evs) ev.
Proof. unfold run. by rewrite foldl_app. Qed.

Lemma fresh_snoc e w evs ev :
  fresh e w (evs ++ [ev])
  <-> fresh e w evs
      /\ Forall (fun i => i ∉ issued (run e w evs))
           (created (app e (ev_rnds ev) (ev_req ev) (store (run e w evs)))).
Proof.
  revert w. induction evs as [|ev' evs IH]; intros w; simpl; [tauto|].
  rewrite IH. tauto.
Qed.

Lemma effect_id_shape r b ps res ps' :
  effect r b ps res ps' ->
  Forall id_shape (ids ps) -> Forall id_shape (ids ps').
Proof.
  intros Heff Hps.
  apply effect_ids in Heff as [[-> _] | [[-> _] | (k & -> & _)]].
  - done.
  - apply Forall_app; split; [done|]. apply Forall_singleton. right; eauto.
  - by apply Forall_delete.
Qed.

Lemma run_id_shape e evs :
  Forall id_shape (ids (store (run e world_seed evs))).
Proof.
  induction evs as [|ev evs IH] using rev_ind.
  - apply Forall_forall. intros i Hi. by left.
  - rewrite run_snoc. unfold step; simpl.
    eapply effect_id_shape; [apply app_effect|done].
Qed.

Lemma run_well_typed e evs : Forall well_typed (store (run e world_seed evs)).
Proof.
  induction evs as [|ev evs IH] using rev_ind.
  - apply seed_consistent.
  - rewrite run_snoc. unfold step; simpl.
    eapply effect_well_typed; [apply app_effect|done].
Qed.

(** A request creates at most one id, the one printed from its bytes. *)
Lemma created_cases e r rq ps :
  created (app e r rq ps) = [] \/ created (app e r rq ps) = [uuidv4 r].
Proof.
  pose proof (app_effect e r rq ps) as Heff.
  destruct (app e r rq ps) as [ran res ps'] eqn:Happ. simpl in Heff.
  rewrite (created_irrelevant ran [] res ps' ps').
  apply effect_ids in Heff as [[_ ->] | [[_ ->] | (k & _ & ->)]]; auto.
Qed.

(** The log of a run: what was issued before, then the ids printed from the
    bytes the creations drew. *)
Lemma issued_run e evs :
  forall w, issued (run e w evs) = (issued w ++ (uuidv4 <$> draws e w evs))%list.
Proof.
  induction evs as [|ev evs IH]; intros w; simpl; [by rewrite app_nil_r|].
  rewrite IH.
  change (issued (step e w ev))
    with (issued w ++ created (app e (ev_rnds ev) (ev_req ev) (store w)))%list.
  destruct (created_cases e (ev_rnds ev) (ev_req ev) (store w)) as [Hc | Hc];
    rewrite Hc; simpl.
  - by rewrite app_nil_r.
  - by rewrite <- app_assoc.
Qed.

Lemma uuidv4_new r (ds : list Uuid.Rnds) :
  uuid_bytes r ∉ (uuid_bytes <$> ds) ->
  uuidv4 r ∉ (ids products_seed ++ (uuidv4 <$> ds))%list.
Proof.
  intros Hnew [Hseed | Hin]%elem_of_app.
  - by apply uuidv4_not_seed in Hseed.
  - apply list_elem_of_fmap in Hin as (r' & Heq & Hr').
    apply Hnew. apply uuidv4_inj in Heq. rewrite Heq.
    by apply list_elem_of_fmap_2.
Qed.

(** When the creations draw pairwise different bytes, no id is handed out
    twice. *)
Lemma fresh_of_draws e evs :
  forall w ds,
  issued w = (ids products_seed ++ (uuidv4 <$> ds))%list ->
  NoDup (uuid_bytes <$> (ds ++ draws e w evs)%list) ->
  fresh e w evs.
Proof.
  induction evs as [|ev evs IH]; intros w ds Hw Hnd; [done|].
  simpl in Hnd |- *.
  destruct (created_cases e (ev_rnds ev) (ev_req ev) (store w)) as [Hc | Hc];
    rewrite Hc in Hnd |- *; simpl in Hnd.
  - split; [done|]. apply (IH _ ds); [|done].
    unfold step; simpl. by rewrite Hc, app_nil_r.
  - split.
    + apply Forall_singleton. rewrite Hw. apply uuidv4_new.
      rewrite fmap_app in Hnd. apply NoDup_app in Hnd as (_ & Hdis & Hnd).
      intros Hin. apply (Hdis _ Hin). simpl. by left.
    + apply (IH _ (ds ++ [ev_rnds ev])%list).
      * unfold step; simpl. by rewrite Hc, Hw, fmap_app, <- app_assoc.
      * by rewrite <- app_assoc.
Qed.

Lemma fresh_of_seed_draws e evs :
  NoDup (uuid_bytes <$> draws e world_seed evs) -> fresh e world_seed evs.
Proof.
  intros Hnd. apply (fresh_of_draws e evs world_seed []); [|done].
  by rewrite app_nil_r.
Qed.

(** ** Lookups by id *)

Lemma find_missing i ps :
  i ∉ ids ps -> list_find (fun p => Product.id p = i) ps = None.
Proof.
  intros H. apply list_find_None, Forall_forall. intros p Hp <-.
  apply H. unfold ids. by apply list_elem_of_fmap_2.
Qed.

Lemma find_present i ps :
  i ∈ ids ps ->
  exists k p, list_find (fun p => Product.id p = i) ps = Some (k, p)
              /\ ps !! k = Some p /\ Product.id p = i.
Proof.
  intros H. unfold ids in H. apply list_elem_of_fmap in H as (p & -> & Hp).
  destruct (list_find (fun q => Product.id q = Product.id p) ps) as [[k q]|] eqn:Hf.
  - exists k, q. apply list_find_lookup in Hf as [? ?]. done.
  - rewrite list_find_None, Forall_forall in Hf. by destruct (Hf p Hp).
Qed.


(** ** Shadowed routes *)

(** C3. [GET /products/:id] is registered before [GET /products/search] and
    [GET /products/stats].  So, in every state a run from the seed can reach,
    an authorized GET of /api/products/search or /api/products/stats is taken
    by the [:id] route with the id "search" or "stats"; no product has that
    id, the answer is 404 "Product not found", and neither the search nor the
    stats handler runs. *)
Theorem search_and_stats_are_shadowed e evs r rq x :
  x = "search" \/ x = "stats" ->
  authorized e rq ->
  targets rq GET ["products"; x] ->
  let ps := store (run e world_seed evs) in
  layer_name <$> apiRouter
  = [L_auth; L_list; L_get; L_create; L_update; L_delete; L_search; L_stats]
  /\ (exists l, apiRouter !! 2%nat = Some l /\ layer_name l = L_get
                /\ layer_match l (method rq) ["products"; x] = Some {["id" := x]})
  /\ (x ∉ ids ps)
  /\ app e r rq ps
     = {| ran := [L_auth; L_get];
          response := answer 404 (BError "Product not found");
          products := ps |}.
Proof.
  intros Hx Ha Ht ps.
  assert (Hnot : x ∉ ids ps).
  { intros Hin. pose proof (run_id_shape e evs) as Hs.
    rewrite Forall_forall in Hs. apply Hs, id_shape_length in Hin.
    destruct Hx as [-> | ->], Hin; discriminate. }
  split; [reflexivity|]. split; [|split; [done|]].
  - eexists; split; [reflexivity|]. split; [reflexivity|].
    destruct Ht as [-> _]. by destruct Hx as [-> | ->].
  - rewrite (app_get _ _ _ _ x) by done. unfold getProduct.
    by rewrite find_by_id, find_missing.
Qed.

Lemma authorized_example m p q b : authorized env_example (request m p q b).
Proof. exists key_example. done. Qed.

Lemma search_and_stats_are_shadowed_witness :
  app env_example [] (request GET ["products"; "search"] [("q", "phone")] [])
    (store (run env_example world_seed trace_example))
  = {| ran := [L_auth; L_get];
       response := answer 404 (BError "Product not found");
       products := store (run env_example world_seed trace_example) |}.
Proof.
  refine (proj2 (proj2 (proj2
    (search_and_stats_are_shadowed env_example trace_example []
       (request GET ["products"; "search"] [("q", "phone")] []) "search"
       _ _ _)))).
  - by left.
  - by exists key_example.
  - by split.
Defined.

(** ** The collection invariant *)

(** Against C10 as stated: two creations that draw the same sixteen bytes are
    given the same id, and the collection then holds it twice. *)
Lemma run_with_repeated_bytes_has_duplicate_ids :
  let post := Build_Event rnds_example (request POST ["products"] [] body_example) in
  let w := run env_example world_seed [post; post] in
  ids (store w)
  = [ "1"; "2"; "3"; "109a3fc2-075e-4144-ab88-61ee0c73a5f9";
      "109a3fc2-075e-4144-ab88-61ee0c73a5f9" ]
  /\ ~ NoDup (ids (store w)).
Proof.
  intros post w.
  assert (H : ids (store w)
              = [ "1"; "2"; "3"; "109a3fc2-075e-4144-ab88-61ee0c73a5f9";
                  "109a3fc2-075e-4144-ab88-61ee0c73a5f9" ]) by reflexivity.
  split; [done|]. rewrite H. intros Hnd.
  apply NoDup_cons in Hnd as [_ Hnd]. apply NoDup_cons in Hnd as [_ Hnd].
  apply NoDup_cons in Hnd as [_ Hnd]. apply NoDup_cons in Hnd as [Hnd _].
  apply Hnd. by left.
Qed.

(** C10 (as the code has it). Along every run from the three seed products,
    whatever the requests are, every stored product keeps its five fields
    with their declared types, so that no field is ever null or missing; and
    the ids of the collection stay pairwise distinct as long as the creations
    of the run draw pairwise different bytes for their ids (the sixteen bytes
    [uuidv4] prints, version and variant bits apart). *)
Theorem run_keeps_ids_unique_and_fields_typed e evs :
  let w := run e world_seed evs in
  Forall well_typed (store w)
  /\ Forall (fun p => forall f, field_get f p <> VNull
                                /\ field_get f p <> VUndefined) (store w)
  /\ (NoDup (uuid_bytes <$> draws e world_seed evs) -> NoDup (ids (store w))).
Proof.
  intros w. pose proof (run_well_typed e evs) as Hty. fold w in Hty.
  split; [done|]. split.
  - eapply Forall_impl; [exact Hty|]. intros p Hp f. specialize (Hp f).
    split; intros Hv; rewrite Hv in Hp; by destruct f.
  - intros Hnd.
    by apply (run_consistent e evs world_seed seed_consistent),
      fresh_of_seed_draws.
Qed.

Lemma run_keeps_ids_unique_and_fields_typed_witness :
  ids (store (run env_example world_seed trace_example))
  = ["1"; "3"; "109a3fc2-075e-4144-ab88-61ee0c73a5f9"]
  /\ NoDup (ids (store (run env_example world_seed trace_example)))
  /\ Forall well_typed (store (run env_example world_seed trace_example)).
Proof.
  split; [reflexivity|].
  refine (let H := run_keeps_ids_unique_and_fields_typed env_example trace_example
          in conj (proj2 (proj2 H) _) (proj1 H)).
  apply (bool_decide_unpack _). vm_compute. exact I.
Defined.

(** ** Removal *)







(** ** Creation *)

(** Against C1 as stated: a payload with five well-typed fields is turned down
    because its description is the empty string; and a creation that draws the
    same sixteen bytes as an earlier one is given the id that one was given. *)
Lemma create_rejects_a_typed_payload_or_repeats_an_id :
  let rq := request POST ["products"] []
              [ ("name", VStr "Gift card"); ("description", VStr "");
                ("price", num 25); ("category", VStr "vouchers");
                ("inStock", VBool true) ] in
  let post := request POST ["products"] [] body_example in
  let first := app env_example rnds_example post products_seed in
  let second := app env_example rnds_example post (products first) in
  (authorized env_example rq
   /\ targets rq POST ["products"]
   /\ typed_body (body rq)
   /\ app env_example rnds_example rq products_seed
      = {| ran := [L_auth; L_create];
           response := answer 400 (BError "All fields are required");
           products := products_seed |})
  /\ (typed_body (body post)
      /\ status (response first) = 201
      /\ status (response second) = 201
      /\ created second = created first
      /\ ids (products second)
         = [ "1"; "2"; "3"; "109a3fc2-075e-4144-ab88-61ee0c73a5f9";
             "109a3fc2-075e-4144-ab88-61ee0c73a5f9" ]).
Proof.
  intros rq post first second. split.
  - split; [apply authorized_example|]. split; [done|].
    split; [by intros []|]. reflexivity.
  - split; [by intros []|]. by repeat split.
Qed.

Lemma typed_of_accepted b : creation_accepted b -> typed_body b.
Proof. intros H f. apply H. Qed.

Lemma run_logged e evs i :
  i ∈ ids (store (run e world_seed evs)) -> i ∈ issued (run e world_seed evs).
Proof.
  revert i. induction evs as [|ev evs IH] using rev_ind; intros i; [done|].
  rewrite run_snoc. unfold step; simpl.
  pose proof (app_effect e (ev_rnds ev) (ev_req ev)
                (store (run e world_seed evs))) as Heff.
  destruct (app e (ev_rnds ev) (ev_req ev) (store (run e world_seed evs)))
    as [ran res ps'].
  simpl in *. intros Hi. apply elem_of_app.
  apply effect_ids in Heff as [[Hids _] | [[Hids Hc] | (k & Hids & _)]];
    rewrite Hids in Hi.
  - left. by apply IH.
  - rewrite (created_irrelevant ran [] res ps' ps'), Hc.
    apply elem_of_app in Hi as [Hi|Hi]; [left; by apply IH | by right].
  - left. by apply IH, (list_elem_of_delete_inv _ k).
Qed.

(** C1 (as the code has it). Take any run from the seed, followed by an
    authorized POST /api/products.  If the payload has all five fields with
    their declared types, the three texts non-empty and the price non-zero,
    the answer is 201 with a record made of the payload's fields, appended to
    the collection; its id is the version-4 UUID printed from the sixteen
    bytes drawn, and it equals an id issued before exactly when an earlier
    creation of the run drew the same bytes (version and variant bits apart),
    so that it is new whenever the bytes are.  If a field is missing or has
    the wrong type, the answer is 400 and the collection is unchanged. *)
Theorem create_product e evs r rq :
  authorized e rq ->
  targets rq POST ["products"] ->
  let w := run e world_seed evs in
  let res := app e r rq (store w) in
  let new := newProduct r (body rq) in
  (creation_accepted (body rq) ->
     response res = answer 201 (BProduct new)
     /\ products res = (store w ++ [new])%list
     /\ (forall f, field_get f new = given (body rq) f)
     /\ uuid_parse (Product.id new) = uuid_bytes r
     /\ (Product.id new ∈ issued w
         <-> uuid_bytes r ∈ (uuid_bytes <$> draws e world_seed evs))
     /\ (Product.id new ∈ ids (store w) ->
         uuid_bytes r ∈ (uuid_bytes <$> draws e world_seed evs)))
  /\ (~ typed_body (body rq) ->
        status (response res) = 400
        /\ products res = store w
        /\ length (products res) = length (store w)).
Proof.
  intros Ha Ht w res new. subst res.
  rewrite app_create by done. split.
  - intros Hb. rewrite validateProductCreation_accepts by done. simpl.
    assert (Hiff : uuidv4 r ∈ issued w
                   <-> uuid_bytes r ∈ (uuid_bytes <$> draws e world_seed evs)).
    { subst w. rewrite issued_run. split.
      - intros [Hseed | Hin]%elem_of_app.
        + by apply uuidv4_not_seed in Hseed.
        + apply list_elem_of_fmap in Hin as (r' & Heq & Hr').
          apply uuidv4_inj in Heq. rewrite Heq. by apply list_elem_of_fmap_2.
      - intros (r' & Heq & Hr')%list_elem_of_fmap. apply elem_of_app. right.
        apply uuidv4_inj in Heq. rewrite Heq. by apply list_elem_of_fmap_2. }
    split; [done|]. split; [done|]. split; [by intros []|].
    split; [apply uuid_parse_v4|]. split; [done|].
    intros Hin. by apply Hiff, run_logged.
  - intros Hb.
    destruct (validateProductCreation_rejects (Build_Ctx e r rq ∅) (store w))
      as [-> | ->]; [|done..].
    intros Hacc. by apply Hb, typed_of_accepted.
Qed.

Lemma create_product_witness :
  let res := app env_example rnds_example
               (request POST ["products"] [] body_example) products_seed in
  status (response res) = 201
  /\ ids (products res) = ["1"; "2"; "3"; "109a3fc2-075e-4144-ab88-61ee0c73a5f9"].
Proof.
  intros res.
  assert (Hb : creation_accepted (body (request POST ["products"] [] body_example))).
  { intros f. split; [|intros _]; by destruct f. }
  destruct (create_product env_example [] rnds_example
              (request POST ["products"] [] body_example)
              (authorized_example _ _ _ _) (conj eq_refl eq_refl))
    as [Hok _].
  destruct (Hok Hb) as (Hr & Hp & _).
  split; [exact (f_equal status Hr) | exact (f_equal ids Hp)].
Defined.

(** ** Merge-update *)

(** Against C2 as stated: an update whose payload gives a well-typed
    description, the empty string; the request is answered 200 and the stored
    description stays. *)
Lemma update_ignores_an_empty_text :
  let rq := request PUT ["products"; "1"] [] [("description", VStr "")] in
  let res := app env_example [] rq products_seed in
  authorized env_example rq
  /\ targets rq PUT ["products"; "1"]
  /\ "1" ∈ ids products_seed
  /\ typeof (given (body rq) F_description) = field_type F_description
  /\ status (response res) = 200
  /\ products res = products_seed
  /\ field_get F_description <$> (products res !! 0%nat)
     = Some (VStr "High-performance laptop with 16GB RAM")
  /\ field_get F_description <$> (products res !! 0%nat)
     <> Some (given (body rq) F_description).
Proof.
  intros rq res. split; [apply authorized_example|]. split; [done|].
  split; [by apply (bool_decide_unpack _)|].
  repeat split; try reflexivity. discriminate.
Qed.

Lemma merge_given b p f :
  typeof (given b f) = field_type f ->
  truthy (given b f) = true \/ f = F_inStock ->
  field_get f (merge b p) = given b f.
Proof.
  intros Ht Hv. unfold given in *.
  destruct f; simpl in *; unfold js_or;
    try (destruct Hv as [-> | ?]; done).
  by destruct (prop b "inStock").
Qed.

Lemma merge_absent b p f :
  given b f = VUndefined -> field_get f (merge b p) = field_get f p.
Proof.
  unfold given. intros Hv. destruct f; simpl in *; unfold js_or; by rewrite Hv.
Qed.

Lemma merge_falsy b p f :
  f <> F_inStock -> truthy (given b f) = false ->
  field_get f (merge b p) = field_get f p.
Proof.
  unfold given. intros Hf Hv. destruct f; simpl in *; unfold js_or;
    try by rewrite Hv. done.
Qed.

(** C2 (as the code has it). An authorized PUT /api/products/:id on an id of
    the collection, with a payload the update validator accepts, is answered
    200 with the merged product, which replaces the first product of that id
    and keeps its id.  A field given with its declared type and a truthy
    value (any boolean for inStock) replaces the stored one; a field absent
    from the payload keeps the stored one; the other products are untouched.
    With the payload [{price: 999}] only the price changes. *)
Theorem update_product e r rq ps i :
  authorized e rq ->
  targets rq PUT ["products"; i] ->
  i ∈ ids ps ->
  update_accepted (body rq) ->
  let res := app e r rq ps in
  let b := body rq in
  exists k p,
    ps !! k = Some p /\ Product.id p = i
    /\ response res = answer 200 (BProduct (merge b p))
    /\ products res = <[k := merge b p]> ps
    /\ Product.id (merge b p) = i
    /\ (forall f, typeof (given b f) = field_type f ->
                  truthy (given b f) = true \/ f = F_inStock ->
                  field_get f (merge b p) = given b f)
    /\ (forall f, given b f = VUndefined ->
                  field_get f (merge b p) = field_get f p)
    /\ (forall j, j <> k -> products res !! j = ps !! j)
    /\ (b = {["price" := num 999]} ->
        merge b p
        = Product.mk (Product.id p) (Product.name p) (Product.description p)
            (num 999) (Product.category p) (Product.inStock p)).
Proof.
  intros Ha Ht Hin Hb res b. subst res.
  destruct (find_present i ps Hin) as (k & p & Hf & Hk & Hi).
  exists k, p. rewrite (app_update _ _ _ _ i) by done.
  rewrite validateProductUpdate_accepts by done.
  unfold updateProduct. rewrite find_by_id, Hf. simpl. fold b.
  repeat split; try done.
  - intros f. apply merge_given.
  - intros f. apply merge_absent.
  - intros j Hj. by rewrite list_lookup_insert_ne.
  - intros ->. reflexivity.
Qed.

Lemma update_product_witness :
  let res := app env_example [] (request PUT ["products"; "1"] [] [("price", num 999)])
               products_seed in
  status (response res) = 200
  /\ products res
     = [ Product.mk "1" (VStr "Laptop")
           (VStr "High-performance laptop with 16GB RAM")
           (num 999) (VStr "electronics") (VBool true);
         Product.mk "2" (VStr "Smartphone")
           (VStr "Latest model with 128GB storage")
           (num 800) (VStr "electronics") (VBool true);
         Product.mk "3" (VStr "Coffee Maker")
           (VStr "Programmable coffee maker with timer")
           (num 50) (VStr "kitchen") (VBool false) ].
Proof.
  intros res.
  assert (Hin : "1" ∈ ids products_seed) by (by apply (bool_decide_unpack _)).
  assert (Hb : update_accepted
                 (body (request PUT ["products"; "1"] [] [("price", num 999)]))).
  { intros f. by destruct f; simpl; [..|left]. }
  destruct (update_product env_example []
              (request PUT ["products"; "1"] [] [("price", num 999)])
              products_seed "1" (authorized_example _ _ _ _)
              (conj eq_refl eq_refl) Hin Hb)
    as (k & p & _ & _ & Hr & Hp & _).
  split; [exact (f_equal status Hr) | reflexivity].
Defined.

(** ** Falsy values *)

Lemma prop_delete b k k' :
  prop (delete k b) k' = if decide (k = k') then VUndefined else prop b k'.
Proof.
  unfold prop. case_decide; [subst; by rewrite lookup_delete_eq|].
  by rewrite lookup_delete_ne.
Qed.

(** Against C6 as stated: a creation payload whose only falsy value is
    [inStock: false] is accepted. *)
Lemma create_accepts_inStock_false :
  let rq := request POST ["products"] []
              [ ("name", VStr "Kettle"); ("description", VStr "1.7 l kettle");
                ("price", num 30); ("category", VStr "kitchen");
                ("inStock", VBool false) ] in
  let res := app env_example rnds_example rq products_seed in
  authorized env_example rq
  /\ targets rq POST ["products"]
  /\ typeof (given (body rq) F_inStock) = field_type F_inStock
  /\ truthy (given (body rq) F_inStock) = false
  /\ status (response res) = 201
  /\ length (products res) = 4%nat.
Proof. intros rq res. split; [apply authorized_example|]. by repeat split. Qed.

Lemma validateProductCreation_falsy ctx ps f :
  f <> F_inStock -> truthy (given (body (req ctx)) f) = false ->
  validateProductCreation ctx ps = Fail (ValidationError "All fields are required").
Proof.
  unfold given, validateProductCreation. intros Hf Hv.
  destruct f; simpl in Hv; try done; rewrite Hv; simpl;
    by rewrite ?orb_true_r.
Qed.

Lemma validateProductUpdate_without e r prm rq ps f :
  f <> F_inStock -> truthy (given (body rq) f) = false ->
  validateProductUpdate (Build_Ctx e r (without f rq) prm) ps
  = validateProductUpdate (Build_Ctx e r rq prm) ps.
Proof.
  unfold given, validateProductUpdate. intros Hf Hv.
  destruct f; simpl in *; try done; rewrite !prop_delete; simpl;
    by rewrite Hv.
Qed.

Lemma merge_without b p f :
  f <> F_inStock -> truthy (given b f) = false ->
  merge (delete (field_key f) b) p = merge b p.
Proof.
  unfold given, merge, js_or. intros Hf Hv.
  destruct f; simpl in *; try done; rewrite !prop_delete; simpl;
    by rewrite Hv.
Qed.

(** C6 (as the code has it). Let an authorized request carry, for name,
    description, price or category, a value of the declared type that is falsy
    (the empty string, zero).  The server answers it exactly as it answers the
    same request with that field left out.  As a creation it is rejected with
    400 "All fields are required" and nothing is stored; as an update it
    leaves that field of every stored product as it was. *)
Theorem falsy_text_or_price_counts_as_absent e r rq ps f :
  authorized e rq ->
  f <> F_inStock ->
  typeof (given (body rq) f) = field_type f ->
  truthy (given (body rq) f) = false ->
  (targets rq POST ["products"] ->
     app e r rq ps = app e r (without f rq) ps
     /\ app e r rq ps
        = {| ran := [L_auth; L_create];
             response := answer 400 (BError "All fields are required");
             products := ps |})
  /\ (forall i, targets rq PUT ["products"; i] ->
        app e r rq ps = app e r (without f rq) ps
        /\ forall j, field_get f <$> (products (app e r rq ps) !! j)
                     = field_get f <$> (ps !! j)).
Proof.
  intros Ha Hf Hty Hv. split.
  - intros Ht.
    rewrite !app_create by done.
    rewrite !validateProductCreation_falsy with (f := f); try done.
    unfold given; simpl. rewrite prop_delete. by case_decide.
  - intros i Ht.
    rewrite !(app_update _ _ _ _ i) by done.
    rewrite validateProductUpdate_without by done.
    destruct (validateProductUpdate _ _) eqn:Hval;
      [by apply validateProductUpdate_silent in Hval | | done].
    unfold updateProduct; rewrite !find_by_id; simpl.
    destruct (list_find _ _) as [[k p]|] eqn:Hfind; [|done]. simpl.
    rewrite merge_without by done.
    split; [done|]. intros j.
    apply list_find_lookup in Hfind as [Hk _].
    destruct (decide (j = k)) as [->|Hne].
    + rewrite list_lookup_insert_eq by (by eapply lookup_lt_Some).
      rewrite Hk. simpl. f_equal. by apply merge_falsy.
    + by rewrite list_lookup_insert_ne.
Qed.

Lemma falsy_text_or_price_counts_as_absent_witness :
  app env_example rnds_example
    (request POST ["products"] []
       [ ("name", VStr "Sample"); ("description", VStr "Free sample");
         ("price", num 0); ("category", VStr "promo"); ("inStock", VBool true) ])
    products_seed
  = {| ran := [L_auth; L_create];
       response := answer 400 (BError "All fields are required");
       products := products_seed |}.
Proof.
  refine (proj2 (proj1
    (falsy_text_or_price_counts_as_absent env_example rnds_example
       (request POST ["products"] []
          [ ("name", VStr "Sample"); ("description", VStr "Free sample");
            ("price", num 0); ("category", VStr "promo");
            ("inStock", VBool true) ])
       products_seed F_price (authorized_example _ _ _ _) _ _ _) _)).
  - discriminate.
  - reflexivity.
  - reflexivity.
  - by split.
Defined.

(** ** Listing *)

Lemma slice_lookup {A} (l : list A) (a b : Z) (n : nat) :
  0 <= a -> a <= b ->
  slice_int l a b !! n
  = if decide (Z.of_nat n < b - a) then l !! (Z.to_nat a + n)%nat else None.
Proof.
  intros Ha Hb. unfold slice_int.
  destruct (Z.ltb_spec a 0), (Z.ltb_spec b 0); try lia.
  rewrite lookup_take, lookup_drop.
  repeat case_decide; try done; try lia.
  - f_equal. lia.
  - symmetry. apply lookup_ge_None. lia.
Qed.

Lemma window_lookup {A} (l : list A) (a b n : nat) :
  window a b l !! n = if decide (n < b - a)%nat then l !! (a + n)%nat else None.
Proof. unfold window. by rewrite lookup_take, lookup_drop. Qed.

Lemma slice_window {A} (l : list A) (a b : Z) :
  0 <= a -> a <= b -> slice_int l a b = window (Z.to_nat a) (Z.to_nat b) l.
Proof.
  intros Ha Hb. apply list_eq. intros n.
  rewrite slice_lookup, window_lookup by done.
  repeat case_decide; try done; lia.
Qed.

Lemma filter_category c (ps : list Product.t) :
  filter (fun p => strict_eq_str (Product.category p) c = true) ps
  = filter (fun p => Product.category p = VStr c) ps.
Proof. apply list_filter_iff. intros p. apply strict_eq_str_true. Qed.

(** *** The numbers of the page window *)

(** Rounding leaves an integer below 2^53 as it is, and keeps a larger one
    beyond 2^53 on its side of zero. *)
Lemma round_cases z :
  (Z.abs z < 2 ^ 53 /\ JsNumber.round z = JsNumber.Fin z)
  \/ (2 ^ 53 <= z
      /\ (JsNumber.round z = JsNumber.PInf
          \/ exists m, JsNumber.round z = JsNumber.Fin m /\ 2 ^ 53 <= m))
  \/ (z <= - 2 ^ 53
      /\ (JsNumber.round z = JsNumber.NInf
          \/ exists m, JsNumber.round z = JsNumber.Fin m /\ m <= - 2 ^ 53)).
Proof.
  unfold JsNumber.round.
  destruct (Z.ltb_spec (Z.abs z) (2 ^ 53)) as [Hs|Hb]; [by left|].
  set (a := Z.abs z) in *.
  set (ulp := 2 ^ (Z.log2 a - 52)).
  set (q := a / ulp).
  set (q' := if _ : bool then q + 1 else q).
  assert (Ha : 0 < a) by lia.
  assert (He : 53 <= Z.log2 a).
  { change 53 with (Z.log2 (2 ^ 53)). by apply Z.log2_le_mono. }
  assert (Hu : 2 <= ulp).
  { change 2 with (2 ^ 1) at 1. apply Z.pow_le_mono_r; lia. }
  assert (Hq : 2 ^ 52 <= q).
  { apply Z.div_le_lower_bound; [lia|].
    etrans; [|apply (Z.log2_spec a Ha)].
    subst ulp. rewrite <- Z.pow_add_r by lia.
    apply Z.pow_le_mono_r; lia. }
  assert (Hq' : q <= q') by (subst q'; case_match; lia).
  assert (Hm : 2 ^ 53 <= q' * ulp).
  { change (2 ^ 53) with (2 ^ 52 * 2). nia. }
  right. destruct (Z.ltb_spec z 0) as [Hz|Hz].
  - right. split; [lia|].
    destruct (_ <=? _); [by left|]. right. eexists. split; [done|].
    replace (Z.sgn z) with (-1) by lia. lia.
  - left. split; [lia|].
    destruct (_ <=? _); [by left|]. right. eexists. split; [done|].
    replace (Z.sgn z) with 1 by lia. lia.
Qed.

Lemma round_small z : Z.abs z < 2 ^ 53 -> JsNumber.round z = JsNumber.Fin z.
Proof. intros Hz. destruct (round_cases z) as [[_ H]|[[H _]|[H _]]]; [done|lia..]. Qed.

Lemma round_truthy z : z <> 0 -> JsNumber.truthy (JsNumber.round z) = true.
Proof.
  intros Hz.
  destruct (round_cases z) as [[_ ->]|[[H [->|(m & -> & Hm)]]|[H [->|(m & -> & Hm)]]]];
    simpl; try done.
  all: apply negb_true_iff, Z.eqb_neq; lia.
Qed.

Lemma parseInt_or_absent x d :
  JsString.parse_integer x = None -> JsNumber.parseInt_or x d = JsNumber.Fin d.
Proof. unfold JsNumber.parseInt_or, JsNumber.parseInt. by intros ->. Qed.

Lemma parseInt_or_read x d n :
  JsString.parse_integer x = Some n -> n <> 0 ->
  JsNumber.parseInt_or x d = JsNumber.round n.
Proof.
  unfold JsNumber.parseInt_or, JsNumber.parseInt. intros -> Hn.
  by rewrite round_truthy.
Qed.

Lemma parseInt_or_truthy x d :
  d <> 0 -> JsNumber.truthy (JsNumber.parseInt_or x d) = true.
Proof.
  intros Hd. unfold JsNumber.parseInt_or.
  destruct (JsNumber.truthy (JsNumber.parseInt x)) eqn:Ht; [done|].
  simpl. by apply negb_true_iff, Z.eqb_neq.
Qed.

Lemma parseInt_or_nonzero x d p :
  d <> 0 -> JsNumber.parseInt_or x d = JsNumber.Fin p -> p <> 0.
Proof.
  intros Hd Hp. pose proof (parseInt_or_truthy x d Hd) as Ht.
  rewrite Hp in Ht. simpl in Ht. by apply negb_true_iff, Z.eqb_neq in Ht.
Qed.

Lemma round_alike len z :
  0 <= len <= 2 ^ 53 -> indexes_alike len (JsNumber.round z) z.
Proof.
  intros Hlen. right.
  destruct (round_cases z) as [[_ ->]|[[H [->|(m & -> & Hm)]]|[H [->|(m & -> & Hm)]]]];
    simpl; lia.
Qed.

Lemma alike_mul len n x y :
  0 <= len <= 2 ^ 53 -> y <> 0 ->
  indexes_alike len n x ->
  indexes_alike len (JsNumber.mul n (JsNumber.Fin y)) (x * y).
Proof.
  intros Hlen Hy [H0|H]; [by left|].
  destruct (decide (len = 0)) as [|Hpos]; [by left|]. right.
  destruct n as [m| | |]; simpl in *; [| | |done].
  - destruct (round_alike len (m * y) Hlen) as [|Hr]; [done|].
    destruct (JsNumber.round (m * y)) as [k| | |]; simpl in Hr; [| | |done].
    + destruct H as [->|[H|H]]; [done|..]; nia.
    + destruct H as [->|[H|H]]; [done|..]; nia.
    + destruct H as [->|[H|H]]; [done|..]; nia.
  - destruct (Z.eqb_spec y 0); [done|].
    destruct (Z.ltb_spec y 0); nia.
  - destruct (Z.eqb_spec y 0); [done|].
    destruct (Z.ltb_spec y 0); nia.
Qed.

Lemma slice_alike {A} (l : list A) n1 z1 n2 z2 :
  indexes_alike (Z.of_nat (length l)) n1 z1 ->
  indexes_alike (Z.of_nat (length l)) n2 z2 ->
  slice l n1 n2 = slice_int l z1 z2.
Proof.
  intros H1 H2. unfold slice.
  destruct (decide (Z.of_nat (length l) = 0)) as [H0|Hpos].
  { assert (l = []) as -> by (apply length_zero_iff_nil; lia).
    unfold slice_int. by rewrite !drop_nil, !take_nil. }
  destruct H1 as [|H1]; [done|]. destruct H2 as [|H2]; [done|].
  unfold slice_int.
  set (len := Z.of_nat (length l)) in *.
  assert (Hk :
    (if JsNumber.index len n1 <? 0
     then Z.max (len + JsNumber.index len n1) 0
     else Z.min (JsNumber.index len n1) len)
    = (if z1 <? 0 then Z.max (len + z1) 0 else Z.min z1 len)).
  { destruct n1; simpl in *; [| | |done];
      repeat match goal with |- context [?a <? ?b] => destruct (Z.ltb_spec a b) end;
      lia. }
  assert (Hf :
    (if JsNumber.index len n2 <? 0
     then Z.max (len + JsNumber.index len n2) 0
     else Z.min (JsNumber.index len n2) len)
    = (if z2 <? 0 then Z.max (len + z2) 0 else Z.min z2 len)).
  { destruct n2; simpl in *; [| | |done];
      repeat match goal with |- context [?a <? ?b] => destruct (Z.ltb_spec a b) end;
      lia. }
  by rewrite Hk, Hf.
Qed.

(** On an array that JavaScript can hold, the window the code computes in
    floating point is the window of the exact products. *)
Lemma slice_page {A} (l : list A) (p lim : Z) :
  Z.of_nat (length l) < 2 ^ 32 -> lim <> 0 ->
  slice l
    (JsNumber.mul (JsNumber.sub (JsNumber.Fin p) (JsNumber.Fin 1)) (JsNumber.Fin lim))
    (JsNumber.mul (JsNumber.Fin p) (JsNumber.Fin lim))
  = slice_int l ((p - 1) * lim) (p * lim).
Proof.
  intros Hlen Hl.
  assert (Hb : 0 <= Z.of_nat (length l) <= 2 ^ 53).
  { split; [lia|]. etrans; [apply Z.lt_le_incl, Hlen|]. done. }
  apply slice_alike.
  - apply alike_mul; [done..|]. simpl. by apply round_alike.
  - apply alike_mul; [done..|]. right. simpl. by left.
Qed.

(** Against C5 as stated.  On the seed, page -1 with limit 1 is outside the
    three pages, and yet the slice holds a product, since [slice(-2, -1)]
    counts from the end.  And a page is not always echoed as it was sent:
    2^53 + 1 comes back as 2^53, the nearest number. *)
Lemma list_page_is_not_empty_or_not_echoed :
  let rq := request GET ["products"] [("page", "-1"); ("limit", "1")] [] in
  let rq' := request GET ["products"] [("page", "9007199254740993")] [] in
  authorized env_example rq
  /\ targets rq GET ["products"]
  /\ app env_example [] rq products_seed
     = {| ran := [L_auth; L_list];
          response :=
            answer 200
              (BPage (JsNumber.Fin (-1)) (JsNumber.Fin 1) 3
                 [ Product.mk "2" (VStr "Smartphone")
                     (VStr "Latest model with 128GB storage")
                     (num 800) (VStr "electronics") (VBool true) ]);
          products := products_seed |}
  /\ authorized env_example rq'
  /\ targets rq' GET ["products"]
  /\ app env_example [] rq' products_seed
     = {| ran := [L_auth; L_list];
          response :=
            answer 200
              (BPage (JsNumber.Fin 9007199254740992) (JsNumber.Fin 10) 3 []);
          products := products_seed |}.
Proof.
  intros rq rq'.
  split; [apply authorized_example|]. split; [done|]. split; [done|].
  split; [apply authorized_example|]. split; [done|]. by vm_compute.
Qed.

(** C5 (as the code has it). An authorized GET /api/products is answered 200
    and leaves the collection alone.  [page] and [limit] are the numbers that
    [parseInt] returns: 1 and 10 when the parameter is absent or does not
    start with a number (or is zero), else the number nearest to the integer
    read, which is that integer when it is below 2^53 in size; they are
    echoed.  The list is filtered by exact category when a non-empty category
    is given, and is the whole collection otherwise; [total] is its length.
    When [page] and [limit] are finite and at least 1, on a collection that a
    JavaScript array can hold (shorter than 2^32), the products are the
    positions [(page-1)*limit <= i < page*limit] of the filtered list: none
    when the page starts past the end, all of them on page 1 when [limit] is
    at least the length, however large.  An infinite [limit] on page 1 gives
    all of them too. *)
Theorem list_products e r rq ps :
  authorized e rq ->
  targets rq GET ["products"] ->
  let q := query rq in
  let page := JsNumber.parseInt_or (q !! "page") 1 in
  let limit := JsNumber.parseInt_or (q !! "limit") 10 in
  exists filtered shown,
    app e r rq ps
    = {| ran := [L_auth; L_list];
         response :=
           answer 200 (BPage page limit (Z.of_nat (length filtered)) shown);
         products := ps |}
    /\ (forall c, q !! "category" = Some c -> c <> "" ->
         filtered = filter (fun p => Product.category p = VStr c) ps)
    /\ (q !! "category" = None \/ q !! "category" = Some "" -> filtered = ps)
    /\ (JsString.parse_integer (q !! "page") = None -> page = JsNumber.Fin 1)
    /\ (JsString.parse_integer (q !! "limit") = None -> limit = JsNumber.Fin 10)
    /\ (forall n, JsString.parse_integer (q !! "page") = Some n ->
          (n = 0 -> page = JsNumber.Fin 1)
          /\ (n <> 0 -> page = JsNumber.round n)
          /\ (n <> 0 -> Z.abs n < 2 ^ 53 -> page = JsNumber.Fin n))
    /\ (forall n, JsString.parse_integer (q !! "limit") = Some n ->
          (n = 0 -> limit = JsNumber.Fin 10)
          /\ (n <> 0 -> limit = JsNumber.round n)
          /\ (n <> 0 -> Z.abs n < 2 ^ 53 -> limit = JsNumber.Fin n))
    /\ (forall p l : Z,
          page = JsNumber.Fin p -> limit = JsNumber.Fin l ->
          1 <= p -> 1 <= l -> Z.of_nat (length ps) < 2 ^ 32 ->
          shown = window (Z.to_nat ((p - 1) * l)) (Z.to_nat (p * l)) filtered
          /\ (forall n : nat,
                shown !! n
                = if decide (Z.of_nat n < l)
                  then filtered !! (Z.to_nat ((p - 1) * l) + n)%nat
                  else None)
          /\ (Z.of_nat (length filtered) <= (p - 1) * l -> shown = [])
          /\ (p = 1 -> Z.of_nat (length filtered) <= l -> shown = filtered))
    /\ (page = JsNumber.Fin 1 -> limit = JsNumber.PInf -> shown = filtered).
Proof.
  intros Ha Ht q page limit.
  rewrite app_list by done. unfold listProducts; simpl. fold q page limit.
  set (filtered := match q !! "category" with Some _ => _ | None => _ end).
  exists filtered,
    (slice filtered
       (JsNumber.mul (JsNumber.sub page (JsNumber.Fin 1)) limit)
       (JsNumber.mul page limit)).
  assert (Hread : forall x d n,
    JsString.parse_integer x = Some n ->
    (n = 0 -> JsNumber.parseInt_or x d = JsNumber.Fin d)
    /\ (n <> 0 -> JsNumber.parseInt_or x d = JsNumber.round n)
    /\ (n <> 0 -> Z.abs n < 2 ^ 53 -> JsNumber.parseInt_or x d = JsNumber.Fin n)).
  { intros x d n Hx. split; [|split].
    - intros ->. unfold JsNumber.parseInt_or, JsNumber.parseInt. by rewrite Hx.
    - by apply parseInt_or_read.
    - intros Hn Hs. rewrite (parseInt_or_read x d n) by done. by apply round_small. }
  assert (Hsub : (length filtered <= length ps)%nat).
  { subst filtered. destruct (q !! "category") as [c|]; [|done].
    simpl. destruct (negb _); [apply length_filter|done]. }
  split; [done|].
  split; [|split; [|split; [|split; [|split; [|split; [|split]]]]]].
  - intros c Hc Hne. subst filtered. rewrite Hc. simpl.
    destruct (String.eqb_spec c ""); [done|]. apply filter_category.
  - intros [Hc | Hc]; subst filtered; by rewrite Hc.
  - apply parseInt_or_absent.
  - apply parseInt_or_absent.
  - apply Hread.
  - apply Hread.
  - intros p l Hpage Hlimit Hp Hl Hlen. rewrite Hpage, Hlimit.
    rewrite slice_page by lia.
    assert (Hlook : forall n : nat,
      slice_int filtered ((p - 1) * l) (p * l) !! n
      = if decide (Z.of_nat n < l)
        then filtered !! (Z.to_nat ((p - 1) * l) + n)%nat
        else None).
    { intros n. rewrite slice_lookup by nia.
      repeat case_decide; try done; lia. }
    split; [apply slice_window; nia|]. split; [done|]. split.
    + intros Hfar. apply list_eq. intros n. rewrite Hlook.
      case_decide; [|done]. rewrite lookup_nil. apply lookup_ge_None. lia.
    + intros Hone Hall. apply list_eq. intros n. rewrite Hlook, Hone. simpl.
      case_decide; [done|]. symmetry. apply lookup_ge_None. lia.
  - intros -> ->. unfold slice, slice_int.
    change (JsNumber.sub (JsNumber.Fin 1) (JsNumber.Fin 1)) with (JsNumber.Fin 0).
    simpl JsNumber.mul. simpl JsNumber.index.
    destruct (Z.ltb_spec (Z.of_nat (length filtered)) 0); [lia|].
    change (0 <? 0) with false. cbv iota.
    replace (Z.to_nat (0 `min` Z.of_nat (length filtered))) with 0%nat by lia.
    rewrite drop_0. apply firstn_all2. lia.
Qed.

Lemma list_products_witness :
  app env_example []
    (request GET ["products"]
       [("category", "kitchen"); ("page", "1"); ("limit", "1")] [])
    products_seed
  = {| ran := [L_auth; L_list];
       response :=
         answer 200
           (BPage (JsNumber.Fin 1) (JsNumber.Fin 1) 1
              [ Product.mk "3" (VStr "Coffee Maker")
                  (VStr "Programmable coffee maker with timer")
                  (num 50) (VStr "kitchen") (VBool false) ]);
       products := products_seed |}.
Proof.
  destruct (list_products env_example []
              (request GET ["products"]
                 [("category", "kitchen"); ("page", "1"); ("limit", "1")] [])
              products_seed (authorized_example _ _ _ _) (conj eq_refl eq_refl))
    as (filtered & shown & -> & Hcat & _ & _ & _ & _ & _ & Hwin & _).
  rewrite (Hcat "kitchen" eq_refl) by discriminate.
  destruct (Hwin 1 1) as [-> _]; [reflexivity..|vm_compute; reflexivity|].
  rewrite (Hcat "kitchen" eq_refl) by discriminate.
  reflexivity.
Defined.

(** ** Search and statistics *)

(** What the search handler computes when it is called: the products whose
    lower-cased name includes the lower-cased term, in collection order. *)
Lemma filter_by_name_typed term ps :
  Forall well_typed ps ->
  exists found,
    filter_by_name term ps = inr found
    /\ forall p, p ∈ found
         <-> p ∈ ps
             /\ exists s, Product.name p = VStr s
                          /\ JsString.includes (JsString.toLowerCase s) term = true.
Proof.
  induction 1 as [|p ps Hp _ (found & Hfound & IH)]; simpl.
  - exists []. split; [done|]. intros p. split; [by intros ?%elem_of_nil|].
    by intros [?%elem_of_nil _].
  - pose proof (Hp F_name) as Hn. simpl in Hn. unfold name_toLowerCase.
    destruct (Product.name p) as [| | | |s| |] eqn:Hs; try discriminate.
    rewrite Hfound. eexists; split; [reflexivity|]. intros p'.
    destruct (JsString.includes _ term) eqn:Hi.
    + rewrite !elem_of_cons, IH. split.
      * intros [-> | [? ?]]; [split; [by left | eauto] | split; [by right | done]].
      * intros [[-> | ?] ?]; [by left | by right].
    + rewrite elem_of_cons, IH. split.
      * intros [? ?]. split; [by right | done].
      * intros [[-> | ?] (s' & Hs' & Hi')]; [congruence | eauto].
Qed.

(** C7 (the code departs from it). On the seed, the authorized request
    GET /api/products/search?q=phone is taken by the [:id] route and answered
    404; the search handler, had it been reached, would have returned exactly
    the Smartphone record. *)
Theorem search_request_is_answered_404 :
  let rq := request GET ["products"; "search"] [("q", "phone")] [] in
  app env_example [] rq products_seed
  = {| ran := [L_auth; L_get];
       response := answer 404 (BError "Product not found");
       products := products_seed |}
  /\ searchProducts (Build_Ctx env_example [] rq ∅) products_seed
     = Respond
         (answer 200
            (BProducts
               [ Product.mk "2" (VStr "Smartphone")
                   (VStr "Latest model with 128GB storage")
                   (num 800) (VStr "electronics") (VBool true) ]))
         products_seed.
Proof. by split. Qed.

(** C8 (the code departs from it). On the seed, the authorized request
    GET /api/products/stats is taken by the [:id] route and answered 404; the
    stats handler, had it been reached, would have returned
    [{electronics: 2, kitchen: 1}]. *)
Theorem stats_request_is_answered_404 :
  let rq := request GET ["products"; "stats"] [] [] in
  app env_example [] rq products_seed
  = {| ran := [L_auth; L_get];
       response := answer 404 (BError "Product not found");
       products := products_seed |}
  /\ statsProducts (Build_Ctx env_example [] rq ∅) products_seed
     = Respond
         (answer 200 (BStats (list_to_map [("electronics", 2); ("kitchen", 1)])))
         products_seed.
Proof. by split. Qed.

(** * Further properties of the server *)

(** ** The routing table *)

Lemma authMiddleware_denies e r rq prm ps :
  ~ authorized e rq ->
  authMiddleware (Build_Ctx e r rq prm) ps = Fail (UnauthorizedError "Unauthorized").
Proof.
  intros Hn. unfold authMiddleware; simpl.
  destruct (api_key rq) as [k|] eqn:Hk; [|done].
  destruct k as [|c k]; [done|]. simpl.
  case_bool_decide as Heq; [|done].
  destruct Hn. by eexists.
Qed.

Lemma authorized_or_not e rq : authorized e rq \/ ~ authorized e rq.
Proof.
  destruct (api_key rq) as [k|] eqn:Hk;
    [|right; intros (? & ? & _); congruence].
  destruct (decide (k = "")) as [->|Hne];
    [right; intros (? & ? & ? & _); congruence|].
  destruct (decide (API_KEY e = Some k)) as [He|He]; [left; by exists k|].
  right. intros (? & ? & _ & ?). congruence.
Qed.

Lemma listProducts_answers ctx ps : listProducts ctx ps <> Next.
Proof. done. Qed.

Lemma getProduct_answers ctx ps : getProduct ctx ps <> Next.
Proof. unfold getProduct. by destruct (list_find _ _) as [[??]|]. Qed.

Lemma deleteProduct_answers ctx ps : deleteProduct ctx ps <> Next.
Proof. unfold deleteProduct. by destruct (list_find _ _) as [[??]|]. Qed.

Lemma create_answers ctx ps :
  after validateProductCreation createProduct ctx ps <> Next.
Proof. unfold after. by destruct (validateProductCreation _ _). Qed.

Lemma update_answers ctx ps :
  after validateProductUpdate updateProduct ctx ps <> Next.
Proof.
  unfold after. destruct (validateProductUpdate _ _); try done.
  unfold updateProduct. by destruct (list_find _ _) as [[??]|].
Qed.

Lemma run_validated v h ctx ps : run_handlers [v; h] ctx ps = after v h ctx ps.
Proof.
  unfold after; simpl. destruct (v ctx ps); try done. by destruct (h ctx ps).
Qed.

Lemma run_single h ctx ps : run_handlers [h] ctx ps = h ctx ps.
Proof. simpl. by destruct (h ctx ps). Qed.

Lemma match_collection p :
  match_path [Lit "products"] p
  = match p with
    | [a] => if is_products a then Some ∅ else None
    | _ => None
    end.
Proof. destruct p as [|a [|]]; try reflexivity. simpl. by destruct (_ =? _)%string. Qed.

Lemma match_item p :
  match_path [Lit "products"; Par "id"] p
  = match p with
    | [a; i] => if is_products a then Some {["id" := i]} else None
    | _ => None
    end.
Proof.
  destruct p as [|a [|i [|]]]; try reflexivity; simpl;
    by destruct (_ =? _)%string.
Qed.

Lemma match_literal x p :
  match_path [Lit "products"; Lit x] p
  = match p with
    | [a; b] =>
        if is_products a
        then if String.eqb (JsString.toLowerCase b) (JsString.toLowerCase x)
             then Some ∅ else None
        else None
    | _ => None
    end.
Proof.
  destruct p as [|a [|b [|]]]; try reflexivity; simpl;
    repeat destruct (_ =? _)%string; reflexivity.
Qed.

Ltac no_match Hm HP :=
  rewrite Hm; unfold layer_match; cbn [layer_method layer_path];
  rewrite ?match_collection, ?match_item, ?match_literal, ?HP; reflexivity.

Ltac next_layer Hm HP :=
  first
    [ rewrite route_skip by no_match Hm HP
    | erewrite route_stop;
      [ cbn [layer_name layer_stack];
        rewrite ?run_single, ?run_validated; reflexivity
      | no_match Hm HP
      | cbn [layer_name layer_stack]; rewrite ?run_single, ?run_validated;
        auto using listProducts_answers, getProduct_answers,
          deleteProduct_answers, create_answers, update_answers ] ].

(** The walk over the layers registered after the authentication middleware
    is the routing table; the search and stats layers contribute no row. *)
Lemma route_table e r rq p ps :
  route (drop 1 apiRouter) e r rq p ps = routing_table e r rq p ps.
Proof.
  unfold routing_table, apiRouter. simpl drop.
  destruct (method rq) eqn:Hm; destruct p as [|a [|i [|c p]]];
    try destruct (is_products a) eqn:HP;
    repeat next_layer Hm HP; reflexivity.
Qed.

Lemma app_table e r rq ps mount p :
  path rq = mount :: p ->
  JsString.toLowerCase mount = "api" ->
  authorized e rq ->
  app e r rq ps
  = conclude (L_auth :: (routing_table e r rq p ps).1)
      (routing_table e r rq p ps).2 ps.
Proof.
  intros Hp Hm Ha. unfold app. rewrite Hp, Hm. simpl String.eqb. cbv iota.
  unfold apiRouter. rewrite auth_then by done.
  change (route _ e r rq p ps) with (route (drop 1 apiRouter) e r rq p ps).
  by rewrite route_table.
Qed.

Lemma app_denied e r rq ps mount p :
  path rq = mount :: p ->
  JsString.toLowerCase mount = "api" ->
  ~ authorized e rq ->
  app e r rq ps
  = Build_Result [L_auth] (answer 401 (BError "Unauthorized")) ps.
Proof.
  intros Hp Hm Hn. unfold app. rewrite Hp, Hm. simpl String.eqb. cbv iota.
  unfold apiRouter. erewrite route_stop; [|reflexivity|];
    simpl; by rewrite authMiddleware_denies.
Qed.

Lemma app_elsewhere e r rq ps mount p :
  path rq = mount :: p ->
  JsString.toLowerCase mount <> "api" ->
  app e r rq ps = Build_Result [] notRouted ps.
Proof.
  intros Hp Hm. unfold app. rewrite Hp.
  by destruct (String.eqb_spec (JsString.toLowerCase mount) "api").
Qed.

(** ** Every exchange, classified *)

Lemma app_exchange e r rq ps : exchange e r rq ps (app e r rq ps).
Proof.
  destruct (path rq) as [|mount p] eqn:Hpath.
  { unfold app. rewrite Hpath.
    case_bool_decide; [by apply ex_welcome | apply ex_unrouted; by left]. }
  destruct (decide (JsString.toLowerCase mount = "api")) as [Hm|Hm].
  2:{ rewrite (app_elsewhere _ _ _ _ _ _ Hpath Hm). apply ex_unrouted. by left. }
  destruct (authorized_or_not e rq) as [Ha|Hn].
  2:{ rewrite (app_denied _ _ _ _ _ _ Hpath Hm Hn). by apply ex_unauthorized. }
  rewrite (app_table _ _ _ _ _ _ Hpath Hm Ha). unfold routing_table.
  destruct (method rq) eqn:Hmeth; destruct p as [|a [|i [|c p]]];
    try destruct (is_products a); simpl;
    try (apply ex_unrouted; right; done).
  - by apply ex_list.
  - unfold getProduct. destruct (list_find _ _) as [[k q]|] eqn:Hf; simpl.
    + apply list_find_lookup in Hf as [Hk _]. by eapply ex_get.
    + apply ex_missing; [done|set_solver].
  - unfold after.
    destruct (validateProductCreation _ _) eqn:Hv; simpl.
    + by apply validateProductCreation_silent in Hv.
    + apply validateProductCreation_next in Hv. by apply ex_created.
    + unfold validateProductCreation in Hv.
      repeat case_match; simplify_eq; apply ex_invalid; (done || set_solver).
  - unfold after.
    destruct (validateProductUpdate _ _) eqn:Hv; simpl.
    + by apply validateProductUpdate_silent in Hv.
    + apply validateProductUpdate_next in Hv. unfold updateProduct.
      destruct (list_find _ _) as [[k q]|] eqn:Hf; simpl.
      * apply list_find_lookup in Hf as [Hk _]. by eapply ex_updated.
      * apply ex_missing; [done|set_solver].
    + unfold validateProductUpdate in Hv.
      repeat case_match; simplify_eq; apply ex_invalid; (done || set_solver).
  - unfold deleteProduct. destruct (list_find _ _) as [[k q]|] eqn:Hf; simpl.
    + apply list_find_lookup in Hf as [Hk _]. by eapply ex_deleted.
    + apply ex_missing; [done|set_solver].
Qed.

(** ** The whole server *)

Lemma apiRouter_on_object b : apiRouter_on (Object b) = apiRouter.
Proof. reflexivity. Qed.

Lemma pathless_apiRouter b :
  pathless (apiRouter_on b) = [Build_Layer L_auth None None [authMiddleware]].
Proof. reflexivity. Qed.






Lemma server_api e r i ps mount rest :
  in_path i = mount :: rest ->
  JsString.toLowerCase mount = "api" ->
  handed_on i ->
  server e r i ps = sent i (api e r i mount rest ps).
Proof.
  intros Hp Hm Hh. unfold server, sent. rewrite Hp.
  destruct (in_body i) as [st m| |b] eqn:Hb; [by destruct (Hh st m)|..];
    (destruct mount as [|c mount]; [discriminate Hm|]);
    by rewrite Hm.
Qed.

Lemma server_denied e r i ps mount rest :
  in_path i = mount :: rest ->
  JsString.toLowerCase mount = "api" ->
  handed_on i ->
  ~ authorized_in e i ->
  server e r i ps
  = Build_Result [L_auth]
      (answer 401
         (match in_verb i with HEAD => BEmpty | _ => BError "Unauthorized" end))
      ps.
Proof.
  intros Hp Hm Hh Hn. rewrite (server_api _ _ _ _ _ _ Hp Hm Hh).
  assert (Hauth : forall m q prm,
    authMiddleware (Build_Ctx e r (as_request i m q) prm) ps
    = Fail (UnauthorizedError "Unauthorized")).
  { intros m q prm. by apply authMiddleware_denies. }
  unfold api, sent.
  destruct (verb_method (in_verb i)) as [m|] eqn:Hv,
           (canonical rest) as [p|] eqn:Hc.
  - unfold apiRouter_on. erewrite route_stop; [|reflexivity|];
      cbn [layer_name layer_stack]; rewrite run_single, Hauth; [|done].
    simpl. unfold deliver. simpl.
    destruct (in_verb i) as [[]| | |]; try done; by rewrite ?andb_false_r.
  - rewrite pathless_apiRouter. erewrite route_stop; [|reflexivity|];
      cbn [layer_name layer_stack]; rewrite run_single, Hauth; [|done].
    simpl. unfold deliver. simpl.
    destruct (in_verb i) as [[]| | |]; try done; by rewrite ?andb_false_r.
  - rewrite pathless_apiRouter. erewrite route_stop; [|reflexivity|];
      cbn [layer_name layer_stack]; rewrite run_single, Hauth; [|done].
    simpl. unfold deliver. simpl.
    destruct (in_verb i) as [[]| | |]; try done; by rewrite ?andb_false_r.
  - rewrite pathless_apiRouter. erewrite route_stop; [|reflexivity|];
      cbn [layer_name layer_stack]; rewrite run_single, Hauth; [|done].
    simpl. unfold deliver. simpl.
    destruct (in_verb i) as [[]| | |]; try done; by rewrite ?andb_false_r.
Qed.








(** Against C4 as stated: a request without the key, whose body is not the
    JSON it announces, is answered by the error handler with the status of the
    parser's error, 400.  The body parser is the first layer of the
    application and the authentication layer never runs. *)
Lemma keyless_request_with_a_refused_body_is_400 :
  let i := {| in_verb := Std POST; in_path := ["api"; "products"];
              in_key := None; in_query := ∅;
              in_body := Refused 400 "Unexpected end of JSON input";
              in_fresh := false |} in
  in_key i = None
  /\ server env_example rnds_example i products_seed
     = {| ran := [];
          response := answer 400 (BError "Unexpected end of JSON input");
          products := products_seed |}.
Proof. by split. Qed.

(** C4 (as the code has it). A request under /api that the body parser hands
    on, and whose x-api-key header is missing or differs from the configured
    secret, is answered 401 by the authentication layer alone, whatever its
    verb and the rest of its path: no validator and no route handler runs, and
    the collection is the one the request found.  (HEAD gets the status
    without the body.)  When the parser refuses the body, the error handler
    answers with the status of the parser's error and no layer of the router
    runs; the collection is again the one the request found. *)
Theorem unauthorized_is_401 e r i ps mount rest :
  in_path i = mount :: rest ->
  JsString.toLowerCase mount = "api" ->
  in_key i = None \/ in_key i <> API_KEY e ->
  (handed_on i ->
     server e r i ps
     = {| ran := [L_auth];
          response :=
            answer 401
              (match in_verb i with
               | HEAD => BEmpty
               | _ => BError "Unauthorized"
               end);
          products := ps |})
  /\ (forall st message,
        in_body i = Refused st message ->
        server e r i ps
        = {| ran := [];
             response := deliver i (parserError st message);
             products := ps |}).
Proof.
  intros Hp Hm Hk. split.
  - intros Hh. apply (server_denied _ _ _ _ _ _ Hp Hm Hh).
    intros (k & Hsome & _ & He). destruct Hk as [Hk|Hk]; congruence.
  - intros st message Hb. unfold server. by rewrite Hb.
Qed.

Lemma unauthorized_is_401_witness :
  server env_example rnds_example
    {| in_verb := Std POST; in_path := ["API"; "products"; ""];
       in_key := Some "guess"; in_query := ∅;
       in_body := Object (list_to_map body_example); in_fresh := false |}
    products_seed
  = {| ran := [L_auth];
       response := answer 401 (BError "Unauthorized");
       products := products_seed |}.
Proof.
  refine (proj1 (unauthorized_is_401 env_example rnds_example _ products_seed
                   "API" ["products"; ""] _ _ _) _).
  - reflexivity.
  - reflexivity.
  - right. simpl. discriminate.
  - intros st message. simpl. discriminate.
Defined.




(** ** Dispatch, status codes and the collection *)

(** X2. Whatever the request and whatever the collection, neither the search
    handler nor the stats handler runs. *)
Theorem search_and_stats_never_run e r rq ps :
  (L_search ∉ ran (app e r rq ps)) /\ (L_stats ∉ ran (app e r rq ps)).
Proof.
  destruct (app_exchange e r rq ps); simpl;
    repeat match goal with
           | H : _ \/ _ |- _ => destruct H
           | H : _ /\ _ |- _ => destruct H
           | H : _ ∈ _ :: _ |- _ => apply elem_of_cons in H
           | H : _ ∈ [] |- _ => by apply elem_of_nil in H
           end; subst; split; by apply (bool_decide_unpack _).
Qed.

(** X4. A GET request, and any request under /api without the configured
    key, leaves the collection as it found it. *)
Theorem reads_and_refusals_change_nothing e r rq ps :
  method rq = GET \/ ~ authorized e rq ->
  products (app e r rq ps) = ps.
Proof.
  intros H. destruct (app_exchange e r rq ps); simpl; try done;
    destruct H; congruence.
Qed.

Lemma reads_and_refusals_change_nothing_witness :
  products (app env_example rnds_example
              {| method := DELETE; path := ["api"; "products"; "1"];
                 api_key := None; query := ∅; body := ∅ |} products_seed)
  = products_seed.
Proof.
  apply reads_and_refusals_change_nothing. right.
  intros (k & Hk & _). discriminate.
Defined.

(** X5. The status tells what happened to the collection: on 201 the new
    product, built from the payload and the generated id, was appended; on 204
    the product at one position was removed; on any other status the ids of
    the collection, and so its length, are what they were. *)
Theorem status_accounts_for_the_collection e r rq ps :
  let res := app e r rq ps in
  (status (response res) = 201 ->
     products res = (ps ++ [newProduct r (body rq)])%list)
  /\ (status (response res) = 204 ->
        exists k p, ps !! k = Some p /\ products res = delete k ps
                    /\ S (length (products res)) = length ps)
  /\ (status (response res) <> 201 -> status (response res) <> 204 ->
        ids (products res) = ids ps).
Proof.
  intros res. subst res.
  destruct (app_exchange e r rq ps); simpl; repeat split; try done.
  - by rewrite ids_insert_merge.
  - intros _. eexists _, _. repeat split; [eassumption|].
    rewrite length_delete by eauto.
    match goal with H : _ !! _ = Some _ |- _ => apply lookup_lt_Some in H end.
    lia.
Qed.

(** X6. Under /api the status 401 is sent exactly when the request does not
    carry the configured key as a non-empty x-api-key header: an empty key is
    refused even when the configured secret is empty, and every key is refused
    when no secret is configured. *)
Theorem unauthorized_exactly e r rq ps mount p :
  path rq = mount :: p ->
  JsString.toLowerCase mount = "api" ->
  (status (response (app e r rq ps)) = 401 <-> ~ authorized e rq)
  /\ (api_key rq = Some "" -> status (response (app e r rq ps)) = 401)
  /\ (API_KEY e = None -> status (response (app e r rq ps)) = 401).
Proof.
  intros Hp Hm.
  assert (Hden : ~ authorized e rq -> status (response (app e r rq ps)) = 401).
  { intros Hn. by rewrite (app_denied _ _ _ _ _ _ Hp Hm Hn). }
  split; [split; [|done]|split].
  - intros Hs Ha. destruct (app_exchange e r rq ps); simpl in Hs; try done.
  - intros Hk. apply Hden. intros (k & ? & ? & _). congruence.
  - intros He. apply Hden. intros (k & _ & _ & ?). congruence.
Qed.

Lemma unauthorized_exactly_witness :
  status (response (app {| API_KEY := Some "" |} []
                      {| method := GET; path := ["api"; "products"];
                         api_key := Some ""; query := ∅; body := ∅ |}
                      products_seed)) = 401.
Proof.
  exact (proj1 (proj2 (unauthorized_exactly {| API_KEY := Some "" |} []
                         {| method := GET; path := ["api"; "products"];
                            api_key := Some ""; query := ∅; body := ∅ |}
                         products_seed "api" ["products"] eq_refl eq_refl))
           eq_refl).
Defined.

(** ** Reading one product *)

(** X7. An authorized GET /api/products/:id is answered 200 with the first
    product of the collection that has this id, and 404 "Product not found"
    when no product has it. *)
Theorem get_product e r rq ps i :
  authorized e rq ->
  targets rq GET ["products"; i] ->
  let res := app e r rq ps in
  (i ∈ ids ps ->
     exists k p, ps !! k = Some p /\ Product.id p = i
                 /\ (forall j q, (j < k)%nat -> ps !! j = Some q -> Product.id q <> i)
                 /\ response res = answer 200 (BProduct p))
  /\ (i ∉ ids ps -> response res = answer 404 (BError "Product not found")).
Proof.
  intros Ha Ht res. subst res. rewrite (app_get _ _ _ _ i) by done.
  unfold getProduct. rewrite find_by_id. split.
  - intros Hin. destruct (find_present i ps Hin) as (k & p & Hf & Hk & Hi).
    rewrite Hf. exists k, p. repeat split; try done.
    intros j q Hj Hq. apply list_find_Some in Hf as (_ & _ & Hfirst). eauto.
  - intros Hout. by rewrite find_missing.
Qed.

Lemma get_product_witness :
  exists k p,
    products_seed !! k = Some p /\ Product.id p = "3"
    /\ response (app env_example [] (request GET ["products"; "3"] [] [])
                   products_seed)
       = answer 200 (BProduct p).
Proof.
  destruct (get_product env_example [] (request GET ["products"; "3"] [] [])
              products_seed "3" (authorized_example _ _ _ _)
              (conj eq_refl eq_refl)) as [Hin _].
  destruct Hin as (k & p & Hk & Hi & _ & Hr); [by apply (bool_decide_unpack _)|].
  by exists k, p.
Defined.

(** ** More on updates *)

Lemma find_after_insert i (ps : list Product.t) k p p' :
  list_find (fun q => Product.id q = i) ps = Some (k, p) ->
  Product.id p' = i ->
  list_find (fun q => Product.id q = i) (<[k := p']> ps) = Some (k, p').
Proof.
  intros Hf Hi. apply list_find_Some in Hf as (Hk & _ & Hfirst).
  apply list_find_Some. split; [|split; [done|]].
  - apply list_lookup_insert_eq. by eapply lookup_lt_Some.
  - intros j q Hq Hj. rewrite list_lookup_insert_ne in Hq by lia. eauto.
Qed.

Lemma merge_merge b p : merge b (merge b p) = merge b p.
Proof.
  unfold merge, js_or; simpl.
  repeat match goal with
         | |- context [if ?c then _ else _] => destruct c
         end; reflexivity.
Qed.

(** X8. On an authorized PUT /api/products/:id the payload is validated before
    the product is looked up: a payload the update validator refuses is
    answered 400 whether or not the id exists, and an accepted payload for an
    id that is not in the collection is answered 404.  The collection is
    unchanged in both cases. *)
Theorem update_checks_payload_before_id e r rq ps i :
  authorized e rq ->
  targets rq PUT ["products"; i] ->
  let res := app e r rq ps in
  (~ update_accepted (body rq) ->
     status (response res) = 400 /\ products res = ps)
  /\ (update_accepted (body rq) -> i ∉ ids ps ->
        response res = answer 404 (BError "Product not found")
        /\ products res = ps).
Proof.
  intros Ha Ht res. subst res. rewrite (app_update _ _ _ _ i) by done. split.
  - intros Hb.
    by destruct (validateProductUpdate_rejects
                   (Build_Ctx e r rq {["id" := i]}) ps Hb) as [m ->].
  - intros Hb Hout. rewrite validateProductUpdate_accepts by done.
    unfold updateProduct. by rewrite find_by_id, find_missing.
Qed.

Lemma update_checks_payload_before_id_witness :
  status (response (app env_example []
                      (request PUT ["products"; "no-such-id"] []
                         [("price", VStr "cheap")])
                      products_seed)) = 400.
Proof.
  refine (proj1 (proj1
    (update_checks_payload_before_id env_example []
       (request PUT ["products"; "no-such-id"] [] [("price", VStr "cheap")])
       products_seed "no-such-id" (authorized_example _ _ _ _)
       (conj eq_refl eq_refl)) _)).
  intros H. specialize (H F_price). simpl in H. by specialize (H eq_refl).
Defined.

(** X9. An authorized PUT /api/products/:id is idempotent: sending the same
    request again, on the collection the first one left, gets the same answer
    and leaves the same collection. *)
Theorem update_is_idempotent e r rq ps i :
  authorized e rq ->
  targets rq PUT ["products"; i] ->
  let once := app e r rq ps in
  let twice := app e r rq (products once) in
  response twice = response once /\ products twice = products once.
Proof.
  intros Ha Ht once twice. subst once twice.
  rewrite !(app_update _ _ _ _ i) by done.
  change (validateProductUpdate _ (products _))
    with (validateProductUpdate (Build_Ctx e r rq {["id" := i]}) ps).
  destruct (validateProductUpdate _ ps) eqn:Hv; simpl; try done.
  unfold updateProduct. rewrite !find_by_id.
  destruct (list_find _ ps) as [[k p]|] eqn:Hf; simpl.
  - pose proof Hf as Hf'. apply list_find_lookup in Hf' as [_ Hi].
    rewrite (find_after_insert i ps k p (merge (body rq) p)) by done.
    simpl. by rewrite merge_merge, list_insert_insert_eq.
  - by rewrite Hf.
Qed.

Lemma update_is_idempotent_witness :
  let rq := request PUT ["products"; "3"] []
              [("name", VStr "Espresso Maker"); ("inStock", VBool true)] in
  response (app env_example [] rq (products (app env_example [] rq products_seed)))
  = response (app env_example [] rq products_seed)
  /\ products (app env_example [] rq (products (app env_example [] rq products_seed)))
     = products (app env_example [] rq products_seed).
Proof.
  intros rq.
  exact (update_is_idempotent env_example [] rq products_seed "3"
           (authorized_example _ _ _ _) (conj eq_refl eq_refl)).
Defined.

Lemma merge_nothing b p :
  (forall f, given b f = VUndefined) -> merge b p = p.
Proof.
  intros H. unfold merge, js_or.
  pose proof (H F_name) as Hn. pose proof (H F_description) as Hd.
  pose proof (H F_price) as Hp. pose proof (H F_category) as Hc.
  pose proof (H F_inStock) as Hs. unfold given in *. simpl in *.
  rewrite Hn, Hd, Hp, Hc, Hs. by destruct p.
Qed.

(** X10. An authorized PUT /api/products/:id whose payload has none of the
    five fields (the empty object, or only other properties, an "id"
    included) is accepted: the answer is 200 with the stored product and the
    collection is unchanged. *)
Theorem empty_update_is_a_no_op e r rq ps i :
  authorized e rq ->
  targets rq PUT ["products"; i] ->
  (forall f, given (body rq) f = VUndefined) ->
  i ∈ ids ps ->
  exists p, p ∈ ps /\ Product.id p = i
            /\ app e r rq ps
               = Build_Result [L_auth; L_update] (answer 200 (BProduct p)) ps.
Proof.
  intros Ha Ht Hb Hin.
  destruct (find_present i ps Hin) as (k & p & Hf & Hk & Hi).
  exists p. split; [by eapply list_elem_of_lookup_2|]. split; [done|].
  rewrite (app_update _ _ _ _ i) by done.
  rewrite validateProductUpdate_accepts.
  - unfold updateProduct. rewrite find_by_id, Hf. simpl.
    rewrite merge_nothing by done. by rewrite list_insert_id.
  - intros f. simpl. rewrite Hb. by destruct f; simpl; [..|left].
Qed.

Lemma empty_update_is_a_no_op_witness :
  products (app env_example []
              (request PUT ["products"; "2"] [] [("id", VStr "1")])
              products_seed)
  = products_seed.
Proof.
  destruct (empty_update_is_a_no_op env_example []
              (request PUT ["products"; "2"] [] [("id", VStr "1")])
              products_seed "2" (authorized_example _ _ _ _)
              (conj eq_refl eq_refl)) as (p & _ & _ & ->).
  - by intros [].
  - by apply (bool_decide_unpack _).
  - reflexivity.
Defined.

(** X11. Read your writes.  After an authorized PUT /api/products/:id with an
    accepted payload on an id of the collection, an authorized GET of the same
    id is answered 200 with the product the PUT returned. *)
Theorem get_after_update e r rq r' rq' ps i :
  authorized e rq -> targets rq PUT ["products"; i] ->
  authorized e rq' -> targets rq' GET ["products"; i] ->
  update_accepted (body rq) ->
  i ∈ ids ps ->
  let put := app e r rq ps in
  status (response put) = 200
  /\ response (app e r' rq' (products put)) = response put.
Proof.
  intros Ha Ht Ha' Ht' Hb Hin put. subst put.
  rewrite (app_update _ _ _ _ i) by done.
  rewrite validateProductUpdate_accepts by done.
  unfold updateProduct. rewrite find_by_id.
  destruct (find_present i ps Hin) as (k & p & Hf & Hk & Hi). rewrite Hf. simpl.
  split; [done|].
  rewrite (app_get _ _ _ _ i) by done. unfold getProduct. rewrite find_by_id.
  by rewrite (find_after_insert i ps k p (merge (body rq) p)).
Qed.

Lemma get_after_update_witness :
  response (app env_example [] (request GET ["products"; "1"] [] [])
              (products (app env_example []
                           (request PUT ["products"; "1"] [] [("price", num 999)])
                           products_seed)))
  = response (app env_example []
                (request PUT ["products"; "1"] [] [("price", num 999)])
                products_seed).
Proof.
  refine (proj2 (get_after_update env_example []
                   (request PUT ["products"; "1"] [] [("price", num 999)])
                   [] (request GET ["products"; "1"] [] [])
                   products_seed "1" (authorized_example _ _ _ _)
                   (conj eq_refl eq_refl) (authorized_example _ _ _ _)
                   (conj eq_refl eq_refl) _ _)).
  - intros f. by destruct f; simpl; [..|left].
  - by apply (bool_decide_unpack _).
Defined.

(** ** Creation composed with the other operations *)

Lemma find_appended i (ps : list Product.t) p :
  i ∉ ids ps -> Product.id p = i ->
  list_find (fun q => Product.id q = i) (ps ++ [p]) = Some (length ps, p).
Proof.
  intros Hout Hi. apply list_find_Some. split; [|split; [done|]].
  - by rewrite lookup_app_r, Nat.sub_diag by lia.
  - intros j q Hq Hj Hid. rewrite lookup_app_l in Hq by done.
    apply Hout. unfold ids. rewrite <- Hid.
    eapply list_elem_of_fmap_2, list_elem_of_lookup_2, Hq.
Qed.

Lemma delete_appended {A} (l : list A) x : delete (length l) (l ++ [x])%list = l.
Proof. induction l as [|y l IH]; simpl; [done|]. by rewrite IH. Qed.

(** X12. When an authorized POST /api/products with an accepted payload draws
    an id that no product of the collection has, an authorized GET of that id
    returns the created record, and an authorized DELETE of that id gives back
    the collection as it was before the POST. *)
Theorem create_then_get_or_delete e r rq ps r' rq' :
  authorized e rq -> targets rq POST ["products"] ->
  creation_accepted (body rq) ->
  uuidv4 r ∉ ids ps ->
  authorized e rq' ->
  let post := app e r rq ps in
  response post = answer 201 (BProduct (newProduct r (body rq)))
  /\ (targets rq' GET ["products"; uuidv4 r] ->
        app e r' rq' (products post)
        = Build_Result [L_auth; L_get]
            (answer 200 (BProduct (newProduct r (body rq)))) (products post))
  /\ (targets rq' DELETE ["products"; uuidv4 r] ->
        app e r' rq' (products post)
        = Build_Result [L_auth; L_delete] (answer 204 BEmpty) ps).
Proof.
  intros Ha Ht Hb Hfresh Ha' post. subst post.
  rewrite app_create by done.
  rewrite validateProductCreation_accepts by done. simpl.
  split; [done|]. split; intros Ht'.
  - rewrite (app_get _ _ _ _ (uuidv4 r)) by done. unfold getProduct.
    rewrite find_by_id.
    by rewrite (find_appended (uuidv4 r) ps).
  - rewrite (app_delete _ _ _ _ (uuidv4 r)) by done. unfold deleteProduct.
    rewrite find_by_id.
    rewrite (find_appended (uuidv4 r) ps) by done. simpl.
    by rewrite delete_appended.
Qed.

Lemma create_then_get_or_delete_witness :
  products (app env_example []
              (request DELETE ["products"; "109a3fc2-075e-4144-ab88-61ee0c73a5f9"]
                 [] [])
              (products (app env_example rnds_example
                           (request POST ["products"] [] body_example)
                           products_seed)))
  = products_seed.
Proof.
  assert (Hb : creation_accepted (body (request POST ["products"] [] body_example))).
  { intros f. split; [|intros _]; by destruct f. }
  assert (Hf : uuidv4 rnds_example ∉ ids products_seed)
    by (by apply (bool_decide_unpack _)).
  destruct (create_then_get_or_delete env_example rnds_example
              (request POST ["products"] [] body_example) products_seed []
              (request DELETE ["products"; "109a3fc2-075e-4144-ab88-61ee0c73a5f9"]
                 [] [])
              (authorized_example _ _ _ _) (conj eq_refl eq_refl) Hb Hf
              (authorized_example _ _ _ _)) as (_ & _ & Hdel).
  by rewrite (Hdel (conj eq_refl eq_refl)).
Defined.

(** ** More on listing *)

Lemma app_list_selection e r rq ps :
  authorized e rq ->
  targets rq GET ["products"] ->
  let q := query rq in
  let page := JsNumber.parseInt_or (q !! "page") 1 in
  let limit := JsNumber.parseInt_or (q !! "limit") 10 in
  let sel := selection (q !! "category") ps in
  app e r rq ps
  = Build_Result [L_auth; L_list]
      (answer 200
         (BPage page limit (Z.of_nat (length sel))
            (slice sel
               (JsNumber.mul (JsNumber.sub page (JsNumber.Fin 1)) limit)
               (JsNumber.mul page limit)))) ps.
Proof.
  intros Ha Ht q page limit sel. rewrite app_list by done.
  unfold listProducts; simpl. fold q page limit.
  assert (Hsel : match q !! "category" with
                 | Some c =>
                     if negb (c =? "")%string
                     then filter (fun p => strict_eq_str (Product.category p) c = true) ps
                     else ps
                 | None => ps
                 end = sel).
  { subst sel. unfold selection. destruct (q !! "category") as [c|]; [|done].
    destruct (String.eqb_spec c ""), (decide (c = "")); try done; simpl.
    apply filter_category. }
  by rewrite Hsel.
Qed.

Lemma selection_length c (ps : list Product.t) :
  (length (selection c ps) <= length ps)%nat.
Proof.
  unfold selection. destruct c as [s|]; [|done].
  case_decide; [done|]. apply length_filter.
Qed.

Lemma slice_from_end {A} (l : list A) (a b : Z) :
  a < 0 -> b < 0 ->
  slice_int l a b
  = window (Z.to_nat (Z.of_nat (length l) + a))
      (Z.to_nat (Z.of_nat (length l) + b)) l.
Proof.
  intros Ha Hb. unfold slice_int, window.
  destruct (Z.ltb_spec a 0), (Z.ltb_spec b 0); try lia.
  f_equal; [lia|]. f_equal. lia.
Qed.

Lemma slice_backwards {A} (l : list A) (a b : Z) :
  0 <= b <= a \/ b <= a < 0 -> slice_int l a b = [].
Proof.
  intros H. unfold slice_int.
  destruct H as [H|H], (Z.ltb_spec a 0), (Z.ltb_spec b 0); try lia.
  all: match goal with
       | |- take ?n _ = _ => assert (n = 0%nat) as -> by lia
       end; done.
Qed.

Lemma slice_all_but_last {A} (l : list A) (b : Z) :
  b < 0 -> slice_int l 0 b = take (Z.to_nat (Z.of_nat (length l) + b)) l.
Proof.
  intros Hb. unfold slice_int. change (0 <? 0) with false. cbv iota.
  destruct (Z.ltb_spec b 0); [|lia].
  replace (Z.to_nat (0 `min` Z.of_nat (length l))) with 0%nat by lia.
  rewrite drop_0. f_equal. lia.
Qed.

Lemma slice_length {A} (l : list A) (a b : Z) :
  (0 <= a /\ 0 <= b) \/ (a < 0 /\ b < 0) ->
  Z.of_nat (length (slice_int l a b)) <= Z.max 0 (b - a).
Proof.
  intros H. unfold slice_int. rewrite length_take, length_drop.
  destruct H as [H|H], (Z.ltb_spec a 0), (Z.ltb_spec b 0); lia.
Qed.

(** A page nobody can reach: both ends of the window are clamped to the same
    end of the array. *)
Lemma slice_infinite_page {A} (l : list A) (page : JsNumber.t) (lim : Z) :
  page = JsNumber.PInf \/ page = JsNumber.NInf -> lim <> 0 ->
  slice l
    (JsNumber.mul (JsNumber.sub page (JsNumber.Fin 1)) (JsNumber.Fin lim))
    (JsNumber.mul page (JsNumber.Fin lim))
  = [].
Proof.
  intros Hp Hl. unfold slice, slice_int.
  match goal with
  | |- take ?n _ = _ => assert (n = 0%nat) as ->; [|done]
  end.
  destruct Hp as [-> | ->]; simpl;
    destruct (Z.eqb_spec lim 0); try done;
    destruct (Z.ltb_spec lim 0); simpl;
    repeat match goal with |- context [?a <? ?b] => destruct (Z.ltb_spec a b) end;
    lia.
Qed.

(** X13. Pages counted from the end.  On an authorized GET /api/products with
    a finite [limit >= 1] and a finite negative page, on a collection that a
    JavaScript array can hold, the products are the positions
    [len + (page-1)*limit <= i < len + page*limit] of the selected list, cut
    at its start ([len] being its length): page -1 is not the last [limit]
    products but the [limit] products before them. *)
Theorem list_negative_page e r rq ps (p l : Z) :
  authorized e rq ->
  targets rq GET ["products"] ->
  let q := query rq in
  let page := JsNumber.parseInt_or (q !! "page") 1 in
  let limit := JsNumber.parseInt_or (q !! "limit") 10 in
  let sel := selection (q !! "category") ps in
  let len := Z.of_nat (length sel) in
  page = JsNumber.Fin p -> limit = JsNumber.Fin l ->
  1 <= l -> p <= -1 ->
  Z.of_nat (length ps) < 2 ^ 32 ->
  app e r rq ps
  = Build_Result [L_auth; L_list]
      (answer 200
         (BPage page limit len
            (window (Z.to_nat (len + (p - 1) * l))
               (Z.to_nat (len + p * l)) sel))) ps.
Proof.
  intros Ha Ht q page limit sel len Hpage Hlimit Hl Hp Hlen.
  rewrite app_list_selection by done. fold q page limit sel.
  pose proof (selection_length (q !! "category") ps) as Hsel. fold q sel in Hsel.
  rewrite Hpage, Hlimit, slice_page by lia.
  by rewrite slice_from_end by nia.
Qed.

Lemma list_negative_page_witness :
  app env_example [] (request GET ["products"] [("page", "-1"); ("limit", "1")] [])
    products_seed
  = Build_Result [L_auth; L_list]
      (answer 200
         (BPage (JsNumber.Fin (-1)) (JsNumber.Fin 1) 3
            [ Product.mk "2" (VStr "Smartphone")
                (VStr "Latest model with 128GB storage")
                (num 800) (VStr "electronics") (VBool true) ])) products_seed.
Proof.
  apply (list_negative_page env_example []
           (request GET ["products"] [("page", "-1"); ("limit", "1")] [])
           products_seed (-1) 1 (authorized_example _ _ _ _) (conj eq_refl eq_refl));
    first [reflexivity | vm_compute; discriminate].
Defined.

(** X14. A negative limit.  On an authorized GET /api/products with a finite
    [limit <= -1] and a finite page, on a collection that a JavaScript array
    can hold, page 1 returns the selected list without its last [-limit]
    products, however many remain, and every other page is empty. *)
Theorem list_negative_limit e r rq ps (p l : Z) :
  authorized e rq ->
  targets rq GET ["products"] ->
  let q := query rq in
  let page := JsNumber.parseInt_or (q !! "page") 1 in
  let limit := JsNumber.parseInt_or (q !! "limit") 10 in
  let sel := selection (q !! "category") ps in
  let len := Z.of_nat (length sel) in
  page = JsNumber.Fin p -> limit = JsNumber.Fin l ->
  l <= -1 ->
  Z.of_nat (length ps) < 2 ^ 32 ->
  app e r rq ps
  = Build_Result [L_auth; L_list]
      (answer 200
         (BPage page limit len
            (if decide (p = 1) then take (Z.to_nat (len + l)) sel else [])))
      ps.
Proof.
  intros Ha Ht q page limit sel len Hpage Hlimit Hl Hlen.
  rewrite app_list_selection by done. fold q page limit sel.
  pose proof (selection_length (q !! "category") ps) as Hsel. fold q sel in Hsel.
  pose proof (parseInt_or_nonzero (q !! "page") 1 p ltac:(done) Hpage) as Hz.
  rewrite Hpage, Hlimit, slice_page by lia.
  do 3 f_equal. case_decide as Hp.
  - rewrite Hp. replace ((1 - 1) * l) with 0 by lia.
    replace (1 * l) with l by lia. apply slice_all_but_last. lia.
  - apply slice_backwards. nia.
Qed.

Lemma list_negative_limit_witness :
  app env_example [] (request GET ["products"] [("limit", "-1")] []) products_seed
  = Build_Result [L_auth; L_list]
      (answer 200
         (BPage (JsNumber.Fin 1) (JsNumber.Fin (-1)) 3 (take 2 products_seed)))
      products_seed.
Proof.
  apply (list_negative_limit env_example []
           (request GET ["products"] [("limit", "-1")] [])
           products_seed 1 (-1) (authorized_example _ _ _ _) (conj eq_refl eq_refl));
    first [reflexivity | vm_compute; discriminate].
Defined.

Lemma selection_member c ps p :
  p ∈ selection c ps ->
  p ∈ ps /\ (forall s, c = Some s -> s <> "" -> Product.category p = VStr s).
Proof.
  unfold selection. destruct c as [s|]; [|by split].
  destruct (decide (s = "")) as [->|Hne].
  - intros Hp. split; [done|]. by intros ? [= <-].
  - intros [Hc Hp]%list_elem_of_filter. split; [done|]. by intros ? [= <-].
Qed.

(** X15. Whatever the query, the products of an authorized GET /api/products
    are a run of consecutive products of the selected list: each of them is in
    the collection and, when a non-empty category is given, of that category.
    When [limit] is finite and at least 1, on a collection that a JavaScript
    array can hold, there are at most [limit] of them, on every page. *)
Theorem list_shows_a_run_of_the_selection e r rq ps :
  authorized e rq ->
  targets rq GET ["products"] ->
  let q := query rq in
  let page := JsNumber.parseInt_or (q !! "page") 1 in
  let limit := JsNumber.parseInt_or (q !! "limit") 10 in
  let sel := selection (q !! "category") ps in
  exists shown,
    app e r rq ps
    = Build_Result [L_auth; L_list]
        (answer 200 (BPage page limit (Z.of_nat (length sel)) shown)) ps
    /\ (exists before behind, sel = (before ++ shown ++ behind)%list)
    /\ (forall p, p ∈ shown ->
          p ∈ ps /\ (forall c, q !! "category" = Some c -> c <> "" ->
                               Product.category p = VStr c))
    /\ (forall l : Z, limit = JsNumber.Fin l -> 1 <= l ->
          Z.of_nat (length ps) < 2 ^ 32 ->
          Z.of_nat (length shown) <= l).
Proof.
  intros Ha Ht q page limit sel.
  eexists. split; [by apply app_list_selection|]. fold q page limit sel.
  set (shown := slice sel _ _).
  assert (Hrun : exists before behind, sel = (before ++ shown ++ behind)%list).
  { subst shown. unfold slice, slice_int.
    eexists (take _ sel), (drop _ (drop _ sel)).
    by rewrite take_drop, take_drop. }
  split; [done|]. split.
  - intros p Hp. apply (selection_member (q !! "category")).
    destruct Hrun as (before & behind & Hsel).
    assert (Hin : p ∈ (before ++ shown ++ behind)%list).
    { apply elem_of_app. right. apply elem_of_app. by left. }
    by rewrite <- Hsel in Hin.
  - intros l Hlimit Hl Hlen. subst shown.
    pose proof (selection_length (q !! "category") ps) as Hsel. fold q sel in Hsel.
    pose proof (parseInt_or_truthy (q !! "page") 1 ltac:(done)) as Htrue.
    fold page in Htrue. rewrite Hlimit.
    destruct page as [p| | |] eqn:Hpage; [| | |done].
    + assert (Hz : p <> 0) by (simpl in Htrue; by apply negb_true_iff, Z.eqb_neq in Htrue).
      rewrite slice_page by lia.
      etrans; [apply slice_length; nia|]. nia.
    + rewrite slice_infinite_page by (auto; lia). simpl. lia.
    + rewrite slice_infinite_page by (auto; lia). simpl. lia.
Qed.

Lemma list_shows_a_run_of_the_selection_witness :
  exists shown,
    payload (response (app env_example []
               (request GET ["products"]
                  [("category", "electronics"); ("page", "-7"); ("limit", "2")] [])
               products_seed))
    = BPage (JsNumber.Fin (-7)) (JsNumber.Fin 2) 2 shown
    /\ Z.of_nat (length shown) <= 2.
Proof.
  destruct (list_shows_a_run_of_the_selection env_example []
              (request GET ["products"]
                 [("category", "electronics"); ("page", "-7"); ("limit", "2")] [])
              products_seed (authorized_example _ _ _ _) (conj eq_refl eq_refl))
    as (shown & Happ & _ & _ & Hlen).
  exists shown. split.
  - exact (f_equal (fun res => payload (response res)) Happ).
  - apply (Hlen 2); [reflexivity|lia|vm_compute; reflexivity].
Defined.

(** ** The search and stats handlers, when called *)

Lemma filter_by_name_filter term ps :
  Forall well_typed ps ->
  filter_by_name term ps = inr (filter (fun p => name_matches term p = true) ps).
Proof.
  induction 1 as [|p ps Hp _ IH]; simpl; [done|].
  pose proof (Hp F_name) as Hn. simpl in Hn.
  unfold name_toLowerCase, name_matches at 1.
  destruct (Product.name p) as [| | | |s| |] eqn:Hs; try discriminate.
  rewrite IH. destruct (JsString.includes _ term) eqn:Hi.
  - rewrite filter_cons_True; [done|]. unfold name_matches. by rewrite Hs.
  - rewrite filter_cons_False; [done|]. unfold name_matches. rewrite Hs. congruence.
Qed.

Lemma includes_empty s : JsString.includes s "" = true.
Proof. by destruct s. Qed.

(** X16. The search handler.  Called on a collection whose products are well
    typed, it answers 200 with the products whose lower-cased name includes
    the lower-cased [q], in the order of the collection, and leaves the
    collection alone; when [q] is absent or empty the answer is the whole
    collection. *)
Theorem searchProducts_filters_by_name ctx ps :
  Forall well_typed ps ->
  let term := match query (req ctx) !! "q" with
              | Some q => JsString.toLowerCase q
              | None => ""
              end in
  searchProducts ctx ps
  = Respond
      (answer 200 (BProducts (filter (fun p => name_matches term p = true) ps)))
      ps
  /\ (term = "" -> filter (fun p => name_matches term p = true) ps = ps).
Proof.
  intros Hps term. split.
  - unfold searchProducts.
    assert (Hterm : match query (req ctx) !! "q" with
                    | Some q => if truthy (VStr q) then JsString.toLowerCase q else ""
                    | None => ""
                    end = term).
    { subst term. destruct (query (req ctx) !! "q") as [[|c q]|]; done. }
    rewrite Hterm. by rewrite filter_by_name_filter.
  - intros ->. induction Hps as [|p ps Hp _ IH]; [done|].
    rewrite filter_cons_True, IH; [done|].
    pose proof (Hp F_name) as Hn. simpl in Hn. unfold name_matches.
    destruct (Product.name p); try discriminate. apply includes_empty.
Qed.

Lemma searchProducts_filters_by_name_witness :
  searchProducts
    (Build_Ctx env_example []
       (request GET ["products"; "search"] [("q", "PHONE")] []) ∅)
    products_seed
  = Respond
      (answer 200
         (BProducts
            [ Product.mk "2" (VStr "Smartphone")
                (VStr "Latest model with 128GB storage")
                (num 800) (VStr "electronics") (VBool true) ]))
      products_seed.
Proof.
  refine (eq_trans (proj1 (searchProducts_filters_by_name
                     (Build_Ctx env_example []
                        (request GET ["products"; "search"] [("q", "PHONE")] []) ∅)
                     products_seed _)) _).
  - repeat (apply Forall_cons; split; [by intros []|]). apply Forall_nil_2.
  - reflexivity.
Defined.

Lemma count_category_fold ps :
  forall m0 : gmap string Z,
  Forall (fun p => exists c, Product.category p = VStr c
                             /\ c ∉ object_prototype_keys) ps ->
  (forall c n, m0 !! c = Some n -> 0 < n) ->
  exists m, foldl count_category (Some m0) ps = Some m
            /\ (forall c, default 0 (m !! c) = default 0 (m0 !! c) + in_category c ps)
            /\ (forall c n, m !! c = Some n -> 0 < n).
Proof.
  induction ps as [|p ps IH]; intros m0 Hps Hpos.
  - exists m0. split; [done|]. split; [|done]. intros c. unfold in_category. simpl. lia.
  - apply Forall_cons in Hps as [(c0 & Hc0 & Hk) Hps]. cbn [foldl].
    assert (Hstep : count_category (Some m0) p
                    = Some (<[c0 := default 0 (m0 !! c0) + 1]> m0)).
    { unfold count_category. by rewrite Hc0, bool_decide_eq_false_2. }
    rewrite Hstep.
    assert (Hn : 0 <= default 0 (m0 !! c0)).
    { destruct (m0 !! c0) as [n|] eqn:Hm; simpl; [|lia].
      specialize (Hpos _ _ Hm). lia. }
    destruct (IH (<[c0 := default 0 (m0 !! c0) + 1]> m0) Hps) as (m & Hm & Hcount & Hpos').
    { intros c n. destruct (decide (c0 = c)) as [<-|Hne].
      - rewrite lookup_insert_eq. intros [= <-]. lia.
      - rewrite lookup_insert_ne by done. apply Hpos. }
    exists m. split; [done|]. split; [|done].
    intros c. rewrite Hcount. unfold in_category.
    destruct (decide (c0 = c)) as [<-|Hne].
    + rewrite lookup_insert_eq. simpl.
      rewrite filter_cons_True by done. simpl. lia.
    + rewrite lookup_insert_ne by done.
      rewrite filter_cons_False by congruence. done.
Qed.

(** X17. The stats handler.  Called on a collection whose categories are
    strings that name no member of [Object.prototype], it answers 200 with a
    map that gives every category of the collection the number of its
    products, has no key for any other category, and leaves the collection
    alone. *)
Theorem statsProducts_counts_categories ctx ps :
  Forall (fun p => exists c, Product.category p = VStr c
                             /\ c ∉ object_prototype_keys) ps ->
  exists stats,
    statsProducts ctx ps = Respond (answer 200 (BStats stats)) ps
    /\ forall c, stats !! c
                 = if decide (in_category c ps = 0) then None
                   else Some (in_category c ps).
Proof.
  intros Hps.
  destruct (count_category_fold ps ∅ Hps) as (m & Hm & Hcount & Hpos).
  { intros c n. by rewrite lookup_empty. }
  exists m. unfold statsProducts. rewrite Hm. split; [done|].
  intros c. specialize (Hcount c). rewrite lookup_empty in Hcount. simpl in Hcount.
  destruct (m !! c) as [n|] eqn:Hc; simpl in Hcount.
  - specialize (Hpos _ _ Hc). case_decide; [lia|]. f_equal. lia.
  - case_decide; [done|]. unfold in_category in *. lia.
Qed.

Lemma statsProducts_counts_categories_witness :
  exists stats,
    statsProducts (Build_Ctx env_example [] (request GET ["products"; "stats"] [] []) ∅)
      products_seed
    = Respond (answer 200 (BStats stats)) products_seed
    /\ stats !! "electronics" = Some 2
    /\ stats !! "kitchen" = Some 1
    /\ stats !! "garden" = None.
Proof.
  destruct (statsProducts_counts_categories
              (Build_Ctx env_example [] (request GET ["products"; "stats"] [] []) ∅)
              products_seed) as (stats & Hs & Hc).
  - repeat (apply Forall_cons; split;
            [eexists; split; [reflexivity|by apply (bool_decide_unpack _)]|]).
    apply Forall_nil_2.
  - exists stats. split; [done|]. rewrite !Hc. by repeat split.
Defined.

(** ** Validation messages and falsy values of any type *)

(** X18. The two messages of the creation validator.  On an authorized
    POST /api/products, a payload that lacks one of the five fields is
    answered 400 "All fields are required"; a payload whose name,
    description, price and category are truthy and whose inStock is present,
    but in which some field has the wrong type, is answered 400
    "Invalid data types".  Nothing is stored. *)
Theorem creation_messages e r rq ps :
  authorized e rq ->
  targets rq POST ["products"] ->
  let b := body rq in
  ((exists f, given b f = VUndefined) ->
     app e r rq ps
     = Build_Result [L_auth; L_create]
         (answer 400 (BError "All fields are required")) ps)
  /\ ((forall f, f <> F_inStock -> truthy (given b f) = true) ->
      given b F_inStock <> VUndefined ->
      ~ typed_body b ->
      app e r rq ps
      = Build_Result [L_auth; L_create]
          (answer 400 (BError "Invalid data types")) ps).
Proof.
  intros Ha Ht b. subst b. rewrite app_create by done. split.
  - intros [f Hf]. destruct (decide (f = F_inStock)) as [->|Hne].
    + unfold validateProductCreation. unfold given in Hf. simpl in Hf.
      cbn [req]. rewrite Hf. simpl. by rewrite !orb_true_r.
    + rewrite validateProductCreation_falsy with (f := f); try done.
      simpl. by rewrite Hf.
  - intros Hv Hs Hty.
    destruct (validateProductCreation_rejects (Build_Ctx e r rq ∅) ps)
      as [Hr | ->]; [| |done].
    { intros Hacc. by apply Hty, typed_of_accepted. }
    exfalso. unfold validateProductCreation in Hr. cbn [req] in Hr.
    pose proof (Hv F_name ltac:(done)) as Hn.
    pose proof (Hv F_description ltac:(done)) as Hd.
    pose proof (Hv F_price ltac:(done)) as Hp.
    pose proof (Hv F_category ltac:(done)) as Hc.
    unfold given in *. simpl in *. rewrite Hn, Hd, Hp, Hc in Hr. simpl in Hr.
    destruct (prop (body rq) "inStock"); simpl in Hr; try done;
      repeat case_match; discriminate.
Qed.

Lemma creation_messages_witness :
  app env_example rnds_example
    (request POST ["products"] []
       [ ("name", VStr "Mug"); ("description", VStr "Stoneware mug");
         ("price", VStr "12.50"); ("category", VStr "kitchen");
         ("inStock", VBool true) ])
    products_seed
  = Build_Result [L_auth; L_create]
      (answer 400 (BError "Invalid data types")) products_seed.
Proof.
  refine (proj2 (creation_messages env_example rnds_example
                   (request POST ["products"] []
                      [ ("name", VStr "Mug"); ("description", VStr "Stoneware mug");
                        ("price", VStr "12.50"); ("category", VStr "kitchen");
                        ("inStock", VBool true) ])
                   products_seed (authorized_example _ _ _ _)
                   (conj eq_refl eq_refl)) _ _ _).
  - by intros [].
  - discriminate.
  - intros H. specialize (H F_price). discriminate.
Defined.

(** X19. Falsy values of any type on update.  On an authorized
    PUT /api/products/:id, a falsy value given for name, description, price
    or category (null, false, 0, the empty string), whatever its type, is
    neither refused nor stored: the request is answered as if the field were
    left out.  A value given for inStock that is not a boolean, null
    included, is answered 400 and nothing changes. *)
Theorem falsy_values_on_update e r rq ps i f :
  authorized e rq ->
  targets rq PUT ["products"; i] ->
  (f <> F_inStock -> truthy (given (body rq) f) = false ->
     app e r rq ps = app e r (without f rq) ps)
  /\ (f = F_inStock -> given (body rq) f <> VUndefined ->
      typeof (given (body rq) f) <> TBoolean ->
      status (response (app e r rq ps)) = 400 /\ products (app e r rq ps) = ps).
Proof.
  intros Ha Ht. split.
  - intros Hf Hv.
    rewrite !(app_update _ _ _ _ i) by done.
    rewrite validateProductUpdate_without by done.
    destruct (validateProductUpdate _ _) eqn:Hval; try done.
    unfold updateProduct; rewrite !find_by_id; simpl.
    destruct (list_find _ _) as [[k p]|]; [|done]. simpl.
    by rewrite merge_without.
  - intros -> Hdef Hty.
    rewrite (app_update _ _ _ _ i) by done.
    destruct (validateProductUpdate_rejects (Build_Ctx e r rq {["id" := i]}) ps)
      as [m ->]; [|done].
    intros Hacc. specialize (Hacc F_inStock). simpl in Hacc.
    by destruct Hacc.
Qed.

Lemma falsy_values_on_update_witness :
  app env_example [] (request PUT ["products"; "1"] [] [("name", VNull)])
    products_seed
  = app env_example [] (request PUT ["products"; "1"] [] []) products_seed.
Proof.
  exact (proj1 (falsy_values_on_update env_example []
                  (request PUT ["products"; "1"] [] [("name", VNull)])
                  products_seed "1" F_name (authorized_example _ _ _ _)
                  (conj eq_refl eq_refl))
           ltac:(discriminate) eq_refl).
Defined.

(** ** Ids over a run *)

Lemma fresh_app e w evs1 evs2 :
  fresh e w (evs1 ++ evs2) <-> fresh e w evs1 /\ fresh e (run e w evs1) evs2.
Proof.
  revert w. induction evs1 as [|ev evs1 IH]; intros w; simpl; [tauto|].
  rewrite IH. tauto.
Qed.

Lemma retired_id_stays_retired e evs :
  forall w i,
  fresh e w evs -> i ∈ issued w -> i ∉ ids (store w) ->
  i ∉ ids (store (run e w evs)).
Proof.
  induction evs as [|ev evs IH]; intros w i Hf Hi Hout; [done|].
  destruct Hf as [Hnew Hf]. simpl. apply IH; [done| |].
  - unfold step; simpl. apply elem_of_app. by left.
  - unfold step; simpl.
    pose proof (app_effect e (ev_rnds ev) (ev_req ev) (store w)) as Heff.
    destruct (app e (ev_rnds ev) (ev_req ev) (store w)) as [ran res ps'].
    simpl in *.
    apply effect_ids in Heff as [[-> _] | [[-> Hc] | (k & -> & _)]].
    + done.
    + rewrite (created_irrelevant ran [] res ps' ps'), Hc in Hnew.
      rewrite Forall_singleton in Hnew.
      intros [Hin | ->%list_elem_of_singleton]%elem_of_app; [by apply Hout|].
      by apply Hnew.
    + intros Hin. by apply Hout, (list_elem_of_delete_inv _ k).
Qed.

(** X20. Ids are not reused.  Along a run from the seed whose creations draw
    pairwise different bytes for their ids (version and variant bits apart),
    an id that was issued and is no longer in the collection (its product was
    deleted) never appears in the collection again. *)
Theorem deleted_ids_do_not_come_back e evs1 evs2 i :
  NoDup (uuid_bytes <$> draws e world_seed (evs1 ++ evs2)) ->
  i ∈ issued (run e world_seed evs1) ->
  i ∉ ids (store (run e world_seed evs1)) ->
  i ∉ ids (store (run e world_seed (evs1 ++ evs2))).
Proof.
  intros [Hf1 Hf2]%fresh_of_seed_draws%fresh_app Hi Hout.
  unfold run. rewrite foldl_app. by apply retired_id_stays_retired.
Qed.

Lemma deleted_ids_do_not_come_back_witness :
  "2" ∉ ids (store (run env_example world_seed
                      (trace_example
                       ++ [Build_Event [] (request POST ["products"] [] body_example)]))).
Proof.
  apply (deleted_ids_do_not_come_back env_example trace_example
           [Build_Event [] (request POST ["products"] [] body_example)] "2").
  - apply (bool_decide_unpack _). vm_compute. exact I.
  - apply (bool_decide_unpack _). vm_compute. exact I.
  - apply (bool_decide_unpack _). vm_compute. exact I.
Defined.
